(** * Search console (frontend-acorag): the client-side search session

    A shallow embedding of the stateful core of the React front end:

    - [App]           (App.tsx: [handleSearch], [handleRefine],
                       [updateRecentSearches]),
    - [SearchBar]     (SearchBar.tsx: [generateSuggestions], [handleSubmit]),
    - [ResultsList]   (ResultsList.tsx: the sorting and grouping effect),

    together with the parts of the JavaScript run time these functions rely
    on ([String.prototype.split], [trim], [includes], [JSON.parse], object
    spread, [Array.prototype.sort], property lookup on a plain object).

    A JavaScript string is a sequence of UTF-16 code units, so it is a
    [list N] here; [str] injects an ASCII literal.  React state is threaded
    explicitly; the one suspension point of [handleSearch] (the [await] on
    the backend call) splits it into the part before and the part after. *)

From Stdlib Require Import ZArith QArith Lia Lqa List Ascii String Permutation Sorted.
From stdpp Require Import base option list gmap.

Set Warnings "-register-all".
Local Open Scope N_scope.

(** ** JavaScript strings *)

Module JS.

Abbreviation jsstring := (list N).

(** An ASCII literal as a sequence of code units. *)
Definition str (s : string) : jsstring :=
  map N_of_ascii (list_ascii_of_string s).

(** The code unit of the double quote, of the colon and of the backslash. *)
Definition dquote : N := 34.
Definition colon : N := 58.
Definition backslash : N := 92.

(** [quoted s] is [s] between double quotes. *)
Definition quoted (s : jsstring) : jsstring := dquote :: s ++ [dquote].

(** Thrown values that matter here. *)
Inductive exn := SyntaxError | TypeError.

(** The completion of a handler: it returns normally or throws. *)
Inductive completion (A : Type) :=
  | Normal (a : A)
  | Throw (e : exn).
Arguments Normal {A} a.
Arguments Throw {A} e.

Definition cbind {A B} (c : completion A) (k : A -> completion B) : completion B :=
  match c with
  | Normal a => k a
  | Throw e => Throw e
  end.

(** [ToString] on a value that is a string or [undefined]. *)
Definition ToString (v : option jsstring) : jsstring :=
  match v with
  | Some s => s
  | None => str "undefined"
  end.

(** [s.split(sep)] for a one-code-unit separator: every occurrence of the
    separator cuts; the result is never empty. *)
Fixpoint split (sep : N) (s : jsstring) : list jsstring :=
  match s with
  | [] => [[]]
  | c :: s' =>
      if c =? sep then [] :: split sep s'
      else match split sep s' with
           | seg :: segs => (c :: seg) :: segs
           | [] => [[c]]
           end
  end.

(** [pieces.join(sep)] *)
Fixpoint join (sep : jsstring) (l : list jsstring) : jsstring :=
  match l with
  | [] => []
  | [s] => s
  | s :: l' => s ++ sep ++ join sep l'
  end.

(** WhiteSpace and LineTerminator code units of ECMAScript, the ones
    [String.prototype.trim] strips. *)
Definition is_whitespace (c : N) : bool :=
  (c =? 9) || (c =? 10) || (c =? 11) || (c =? 12) || (c =? 13) || (c =? 32)
  || (c =? 160) || (c =? 5760) || ((8192 <=? c) && (c <=? 8202))
  || (c =? 8232) || (c =? 8233) || (c =? 8239) || (c =? 8287)
  || (c =? 12288) || (c =? 65279).

Fixpoint trimStart (s : jsstring) : jsstring :=
  match s with
  | c :: s' => if is_whitespace c then trimStart s' else s
  | [] => []
  end.

Definition trimEnd (s : jsstring) : jsstring := rev (trimStart (rev s)).

Definition trim (s : jsstring) : jsstring := trimEnd (trimStart s).

(** [s.startsWith(t)] and [s.includes(t)]: [t] occurs in [s] as a
    contiguous run of code units. *)
Fixpoint startsWith (s t : jsstring) : bool :=
  match t, s with
  | [], _ => true
  | _ :: _, [] => false
  | d :: t', c :: s' => (c =? d) && startsWith s' t'
  end.

Fixpoint includes (s t : jsstring) : bool :=
  startsWith s t ||
  match s with
  | [] => false
  | _ :: s' => includes s' t
  end.

(** The decimal digits of an array index, as a property key. *)
Fixpoint uint_digits (u : Decimal.uint) : jsstring :=
  match u with
  | Decimal.Nil => []
  | Decimal.D0 u => 48 :: uint_digits u
  | Decimal.D1 u => 49 :: uint_digits u
  | Decimal.D2 u => 50 :: uint_digits u
  | Decimal.D3 u => 51 :: uint_digits u
  | Decimal.D4 u => 52 :: uint_digits u
  | Decimal.D5 u => 53 :: uint_digits u
  | Decimal.D6 u => 54 :: uint_digits u
  | Decimal.D7 u => 55 :: uint_digits u
  | Decimal.D8 u => 56 :: uint_digits u
  | Decimal.D9 u => 57 :: uint_digits u
  end.

Definition index_key (i : nat) : jsstring := uint_digits (Nat.to_uint i).

(** JavaScript numbers as far as the comparators need them: a finite value
    or NaN.  Subtraction of finite doubles has the sign of the exact
    difference, which is all that [Array.prototype.sort] looks at. *)
Inductive number :=
  | NaN
  | Fin (q : Q).

Definition minus (x y : number) : number :=
  match x, y with
  | Fin a, Fin b => Fin (a - b)
  | _, _ => NaN
  end.

End JS.

(** ** JSON.parse and object spread *)

Module JSON.
Import JS.

(** A parsed JSON value.  A number keeps its lexeme: its double value plays
    no part in what follows. *)
Inductive json :=
  | JNull
  | JBool (b : bool)
  | JNum (lexeme : jsstring)
  | JStr (s : jsstring)
  | JArr (elements : list json)
  | JObj (members : list (jsstring * json)).

(** JSON white space: tab, line feed, carriage return, space. *)
Definition is_ws (c : N) : bool :=
  (c =? 9) || (c =? 10) || (c =? 13) || (c =? 32).

Fixpoint skip_ws (s : jsstring) : jsstring :=
  match s with
  | c :: s' => if is_ws c then skip_ws s' else s
  | [] => []
  end.

Definition is_digit (c : N) : bool := (48 <=? c) && (c <=? 57).

Definition hex_value (c : N) : option N :=
  if is_digit c then Some (c - 48)
  else if (97 <=? c) && (c <=? 102) then Some (c - 87)
  else if (65 <=? c) && (c <=? 70) then Some (c - 55)
  else None.

Definition hex4 (h1 h2 h3 h4 : N) : option N :=
  match hex_value h1, hex_value h2, hex_value h3, hex_value h4 with
  | Some a, Some b, Some c, Some d => Some (((a * 16 + b) * 16 + c) * 16 + d)
  | _, _, _, _ => None
  end.

(** The single-character escapes: quote, backslash, slash, b, f, n, r, t. *)
Definition unescape (e : N) : option N :=
  if e =? 34 then Some 34
  else if e =? 92 then Some 92
  else if e =? 47 then Some 47
  else if e =? 98 then Some 8
  else if e =? 102 then Some 12
  else if e =? 110 then Some 10
  else if e =? 114 then Some 13
  else if e =? 116 then Some 9
  else None.

(** The characters of a string literal after its opening quote, up to and
    including the closing quote. *)
Fixpoint parse_chars (s acc : jsstring) : option (jsstring * jsstring) :=
  match s with
  | [] => None
  | c :: s' =>
      if c =? dquote then Some (rev acc, s')
      else if c =? backslash then
        match s' with
        | [] => None
        | e :: s'' =>
            if e =? 117 then
              match s'' with
              | h1 :: h2 :: h3 :: h4 :: s3 =>
                  match hex4 h1 h2 h3 h4 with
                  | Some u => parse_chars s3 (u :: acc)
                  | None => None
                  end
              | _ => None
              end
            else
              match unescape e with
              | Some u => parse_chars s'' (u :: acc)
              | None => None
              end
        end
      else if c <? 32 then None
      else parse_chars s' (c :: acc)
  end.

Fixpoint span_digits (s : jsstring) : jsstring * jsstring :=
  match s with
  | c :: s' =>
      if is_digit c then let '(ds, r) := span_digits s' in (c :: ds, r)
      else ([], s)
  | [] => ([], [])
  end.

(** The exponent part of a number, if there is one. *)
Definition parse_exp (lexeme s : jsstring) : option (jsstring * jsstring) :=
  match s with
  | e :: r =>
      if (e =? 101) || (e =? 69) then
        let '(sign, r1) :=
          match r with
          | c :: r' => if (c =? 43) || (c =? 45) then ([c], r') else ([], r)
          | [] => ([], r)
          end in
        match span_digits r1 with
        | ([], _) => None
        | (ds, r2) => Some (lexeme ++ e :: sign ++ ds, r2)
        end
      else Some (lexeme, s)
  | [] => Some (lexeme, s)
  end.

(** The fraction part of a number, if there is one, then the exponent. *)
Definition parse_frac (lexeme s : jsstring) : option (jsstring * jsstring) :=
  match s with
  | c :: r =>
      if c =? 46 then
        match span_digits r with
        | ([], _) => None
        | (ds, r1) => parse_exp (lexeme ++ c :: ds) r1
        end
      else parse_exp lexeme s
  | [] => parse_exp lexeme s
  end.

(** A JSON number: optional minus, [0] or a digit string without leading
    zero, optional fraction, optional exponent. *)
Definition parse_number (s : jsstring) : option (jsstring * jsstring) :=
  let '(sign, s1) :=
    match s with
    | c :: r => if c =? 45 then ([c], r) else ([], s)
    | [] => ([], s)
    end in
  match s1 with
  | d :: r =>
      if d =? 48 then parse_frac (sign ++ [d]) r
      else if is_digit d then
        let '(ds, r1) := span_digits r in parse_frac (sign ++ d :: ds) r1
      else None
  | [] => None
  end.

Inductive parse_result :=
  | Parsed (v : json) (rest : jsstring)
  | Malformed
  | OutOfFuel.

(** Recursive descent on the JSON grammar.  The fuel bounds the nesting of
    calls; [fuel_enough] below shows that [parse] never runs out. *)
Fixpoint parse_value (fuel : nat) (s : jsstring) : parse_result :=
  match fuel with
  | O => OutOfFuel
  | S fuel =>
      match skip_ws s with
      | [] => Malformed
      | c :: s' =>
          if c =? 123 then
            match skip_ws s' with
            | c' :: r => if c' =? 125 then Parsed (JObj []) r
                         else parse_members fuel s' []
            | [] => Malformed
            end
          else if c =? 91 then
            match skip_ws s' with
            | c' :: r => if c' =? 93 then Parsed (JArr []) r
                         else parse_elements fuel s' []
            | [] => Malformed
            end
          else if c =? dquote then
            match parse_chars s' [] with
            | Some (v, r) => Parsed (JStr v) r
            | None => Malformed
            end
          else if startsWith (c :: s') (str "true") then
            Parsed (JBool true) (drop 4 (c :: s'))
          else if startsWith (c :: s') (str "false") then
            Parsed (JBool false) (drop 5 (c :: s'))
          else if startsWith (c :: s') (str "null") then
            Parsed JNull (drop 4 (c :: s'))
          else
            match parse_number (c :: s') with
            | Some (lexeme, r) => Parsed (JNum lexeme) r
            | None => Malformed
            end
      end
  end
with parse_elements (fuel : nat) (s : jsstring) (acc : list json) : parse_result :=
  match fuel with
  | O => OutOfFuel
  | S fuel =>
      match parse_value fuel s with
      | Parsed v r =>
          match skip_ws r with
          | c :: r' =>
              if c =? 44 then parse_elements fuel r' (v :: acc)
              else if c =? 93 then Parsed (JArr (rev (v :: acc))) r'
              else Malformed
          | [] => Malformed
          end
      | other => other
      end
  end
with parse_members (fuel : nat) (s : jsstring) (acc : list (jsstring * json)) : parse_result :=
  match fuel with
  | O => OutOfFuel
  | S fuel =>
      match skip_ws s with
      | q :: s1 =>
          if q =? dquote then
            match parse_chars s1 [] with
            | Some (k, s2) =>
                match skip_ws s2 with
                | c :: s3 =>
                    if c =? colon then
                      match parse_value fuel s3 with
                      | Parsed v r =>
                          match skip_ws r with
                          | c' :: r' =>
                              if c' =? 44 then parse_members fuel r' ((k, v) :: acc)
                              else if c' =? 125 then Parsed (JObj (rev ((k, v) :: acc))) r'
                              else Malformed
                          | [] => Malformed
                          end
                      | other => other
                      end
                    else Malformed
                | [] => Malformed
                end
            | None => Malformed
            end
          else Malformed
      | [] => Malformed
      end
  end.

(** A successful parse of [s] has consumed at least one code unit. *)
Definition shrinks (p : parse_result) (s : jsstring) : Prop :=
  match p with
  | Parsed _ r => (length r < length s)%nat
  | Malformed | OutOfFuel => True
  end.

(** [JSON.parse(text)]: one value, white space around it, nothing else.
    [None] is the thrown SyntaxError. *)
Definition parse (text : jsstring) : option json :=
  match parse_value (2 * length text + 1) text with
  | Parsed v r => match skip_ws r with [] => Some v | _ :: _ => None end
  | Malformed | OutOfFuel => None
  end.

(** The own enumerable properties that [{...v}] copies from a parsed value:
    the members of an object, the indexed elements of an array, the indexed
    code units of a string, and nothing for a number, a boolean or null. *)
Definition own_properties (v : json) : list (jsstring * json) :=
  match v with
  | JObj members => members
  | JArr elements => imap (fun i e => (index_key i, e)) elements
  | JStr s => imap (fun i c => (index_key i, JStr [c])) s
  | JNull | JBool _ | JNum _ => []
  end.

(** [{...target, ...v}]: every copied property overwrites or adds its key,
    in order, so the last duplicate wins; other keys of [target] stay. *)
Definition spread (target : gmap jsstring json) (v : json) : gmap jsstring json :=
  foldl (fun m kv => <[kv.1 := kv.2]> m) target (own_properties v).

End JSON.

(** ** Library functions the model leaves open

    Unicode case mapping, locale collation, date parsing and
    [JSON.stringify] are not re-implemented: the development is
    parametric in them, and evaluates examples with the small instance
    of module [Example]. *)

Class Builtins := {
  (** [s.toLowerCase()] *)
  toLowerCase : JS.jsstring -> JS.jsstring;
  (** [a.localeCompare(b)]: negative, zero or positive *)
  localeCompare : JS.jsstring -> JS.jsstring -> Z;
  (** the time value of [new Date(s)] for a non-empty [s], in milliseconds
      since the epoch; [None] when [s] does not parse (Invalid Date) *)
  Date_parse : JS.jsstring -> option Z;
  (** [JSON.stringify] on an array of strings *)
  JSON_stringify : list JS.jsstring -> JS.jsstring
}.

(** ** App.tsx *)

Module App.
Import JS JSON.

(** Modelled from the spec: the type [SearchRow] of api.ts, which is not
    among the sources; the fields are the ones the components read
    ([document_id], [title], [snippet], [score], [doc_type], [category],
    [date_modified]), with the optionality of the spec's SearchResultRow. *)
Record SearchRow := {
  document_id : jsstring;
  title : jsstring;
  snippet : option jsstring;
  score : Q;
  doc_type : jsstring;
  category : option jsstring;
  date_modified : option jsstring
}.

(** The argument of [search] in api.ts. *)
Record SearchRequest := {
  req_query : jsstring;
  req_project_id : option jsstring;
  top_k : Z;
  probes : Z
}.

(** [SearchState]; [sortBy] holds whatever was stored at run time, which
    the type assertion in [handleRefine] does not restrict ([None] is
    [undefined]). *)
Record SearchState := {
  query : jsstring;
  projectId : option jsstring;
  filters : gmap jsstring json;
  sortBy : option jsstring
}.

(** The [useState] cells of [App]. *)
Record State := {
  rows : list SearchRow;
  loading : bool;
  searchState : SearchState;
  recentSearches : list jsstring;
  error : option jsstring
}.

(** The component state with what it acts on: [localStorage] and the
    requests sent to the backend so far, oldest first. *)
Record World := {
  app : State;
  localStorage : gmap jsstring jsstring;
  backend : list SearchRequest
}.

Definition initialState : State := {|
  rows := [];
  loading := false;
  searchState := {| query := []; projectId := None; filters := ∅;
                    sortBy := Some (str "relevance") |};
  recentSearches := [];
  error := None
|}.

(** What the awaited backend call settles to. *)
Inductive thrown :=
  | ErrorObject (message : jsstring)
  | OtherValue.

Inductive outcome :=
  | Resolved (data : list SearchRow)
  | Rejected (err : thrown).

(** State setters. *)
Definition setRows (v : list SearchRow) (s : State) : State :=
  {| rows := v; loading := loading s; searchState := searchState s;
     recentSearches := recentSearches s; error := error s |}.

Definition setLoading (v : bool) (s : State) : State :=
  {| rows := rows s; loading := v; searchState := searchState s;
     recentSearches := recentSearches s; error := error s |}.

Definition setError (v : option jsstring) (s : State) : State :=
  {| rows := rows s; loading := loading s; searchState := searchState s;
     recentSearches := recentSearches s; error := v |}.

Definition setSearchState (f : SearchState -> SearchState) (s : State) : State :=
  {| rows := rows s; loading := loading s; searchState := f (searchState s);
     recentSearches := recentSearches s; error := error s |}.

Definition setRecentSearches (f : list jsstring -> list jsstring) (s : State) : State :=
  {| rows := rows s; loading := loading s; searchState := searchState s;
     recentSearches := f (recentSearches s); error := error s |}.

Definition onApp (f : State -> State) (w : World) : World :=
  {| app := f (app w); localStorage := localStorage w; backend := backend w |}.

(** [search(request)]: the request goes out. *)
Definition search (r : SearchRequest) (w : World) : World :=
  {| app := app w; localStorage := localStorage w; backend := backend w ++ [r] |}.

(** ['Error al realizar la búsqueda'] *)
Definition fallbackMessage : jsstring :=
  str "Error al realizar la b" ++ [250] ++ str "squeda".

Section WithBuiltins.
Context `{Builtins}.

(** [[query, ...prev.filter(q => q !== query)].slice(0, 5)] *)
Definition updated (query : jsstring) (prev : list jsstring) : list jsstring :=
  take 5 (query :: filter (fun q => q <> query) prev).

(** [updateRecentSearches]: the updater computes the new list, writes it
    to [localStorage] and returns it as the new state. *)
Definition updateRecentSearches (query : jsstring) (w : World) : World :=
  let l := updated query (recentSearches (app w)) in
  {| app := setRecentSearches (fun _ => l) (app w);
     localStorage := <[str "recentSearches" := JSON_stringify l]> (localStorage w);
     backend := backend w |}.

(** [handleSearch] up to its [await]: lines 65 to 83. *)
Definition handleSearch_begin (query : jsstring) (projectId : option jsstring)
    (filters : option (gmap jsstring json)) (w : World) : World :=
  let w := onApp (setLoading true) w in
  let w := onApp (setError None) w in
  let w := onApp (setSearchState (fun prev =>
             {| App.query := query;
                App.projectId := projectId;
                App.filters := match filters with
                               | Some f => f
                               | None => App.filters prev
                               end;
                sortBy := sortBy prev |})) w in
  search {| req_query := query; req_project_id := projectId;
            top_k := 12; probes := 10 |} w.

(** [handleSearch] from the moment the backend call settles: the rest of
    the [try], or the [catch], and then the [finally]. *)
Definition handleSearch_settle (query : jsstring) (o : outcome) (w : World) : World :=
  let w :=
    match o with
    | Resolved data =>
        let w := onApp (setRows data) w in
        updateRecentSearches query w
    | Rejected err =>
        let w := onApp (setError (Some match err with
                                       | ErrorObject message => message
                                       | OtherValue => fallbackMessage
                                       end)) w in
        onApp (setRows []) w
    end in
  onApp (setLoading false) w.

(** [handleRefine].  The state updates are applied on the spot.  For
    [filter] the updater passed to [setSearchState] calls [JSON.parse]
    and nothing catches what it throws: [Throw] is that error, raised
    when React runs the updater, with no new state.  The default case
    starts a search and does not wait for it. *)
Definition handleRefine (refinement : jsstring) (w : World) : completion World :=
  let parts := split colon refinement in
  let type := default [] (parts !! 0%nat) in
  let value := parts !! 1%nat in
  if decide (type = str "sort") then
    Normal (onApp (setSearchState (fun prev =>
      {| App.query := App.query prev; App.projectId := App.projectId prev;
         App.filters := App.filters prev; sortBy := value |})) w)
  else if decide (type = str "filter") then
    match JSON.parse (ToString value) with
    | Some v =>
        Normal (onApp (setSearchState (fun prev =>
          {| App.query := App.query prev; App.projectId := App.projectId prev;
             App.filters := spread (App.filters prev) v; sortBy := sortBy prev |})) w)
    | None => Throw SyntaxError
    end
  else Normal (handleSearch_begin refinement None None w).

End WithBuiltins.
End App.

(** ** SearchBar.tsx *)

Module SearchBar.
Import JS JSON.

Inductive kind := recent | popular | category.

Record SearchSuggestion := {
  text : jsstring;
  type : kind;
  icon : option jsstring
}.

(** The [useState] cells of [SearchBar]. *)
Record State := {
  q : jsstring;
  project : jsstring;
  isTyping : bool;
  showSuggestions : bool;
  filters : gmap jsstring json;
  suggestions : list SearchSuggestion
}.

Definition setShowSuggestions (v : bool) (s : State) : State :=
  {| q := q s; project := project s; isTyping := isTyping s;
     showSuggestions := v; filters := filters s; suggestions := suggestions s |}.

Definition setSuggestions (v : list SearchSuggestion) (s : State) : State :=
  {| q := q s; project := project s; isTyping := isTyping s;
     showSuggestions := showSuggestions s; filters := filters s; suggestions := v |}.

(** The two icons, as surrogate pairs: a clock face and a folder. *)
Definition clock_icon : jsstring := [55357; 56658].
Definition folder_icon : jsstring := [55357; 56513].

Section WithBuiltins.
Context `{Builtins}.

(** [allSuggestions] of [generateSuggestions]. *)
Definition allSuggestions (recentSearches categories : list jsstring) : list SearchSuggestion :=
  map (fun search => {| text := search; type := recent; icon := Some clock_icon |})
      (take 3 recentSearches)
  ++ map (fun cat => {| text := cat; type := category; icon := Some folder_icon |})
         categories.

(** The text of a suggestion contains the query, case ignored: the
    lower-cased query is a contiguous part of the lower-cased text. *)
Definition contains_ignoring_case (q : jsstring) (sug : SearchSuggestion) : Prop :=
  exists pre post, toLowerCase (text sug) = pre ++ toLowerCase q ++ post.

(** [generateSuggestions]: the list it passes to [setSuggestions]. *)
Definition generateSuggestions (q : jsstring) (recentSearches categories : list jsstring)
    : list SearchSuggestion :=
  match q with
  | _ :: _ =>
      List.filter (fun sug => includes (toLowerCase (text sug)) (toLowerCase q))
                  (allSuggestions recentSearches categories)
  | [] => allSuggestions recentSearches categories
  end.

End WithBuiltins.

(** [s || undefined]: the empty string is falsy. *)
Definition or_undefined (s : jsstring) : option jsstring :=
  match s with
  | [] => None
  | _ :: _ => Some s
  end.

(** [handleSubmit], with the [onSubmit] prop acting on the world of the
    parent. *)
Definition handleSubmit {W : Type}
    (onSubmit : jsstring -> option jsstring -> option (gmap jsstring json) -> W -> W)
    (s : State) (w : W) : State * W :=
  match trim (q s) with
  | _ :: _ =>
      (setShowSuggestions false s,
       onSubmit (q s) (or_undefined (project s)) (Some (filters s)) w)
  | [] => (s, w)
  end.

End SearchBar.

(** ** ResultsList.tsx *)

Module ResultsList.
Import JS JSON App.

(** [Array.prototype.sort] with a comparator.  ECMAScript asks for a
    stable sort and reads a NaN from the comparator as zero
    ([SortCompare]).  For a consistent comparator every stable sort
    returns the list computed here, by insertion from the right; for an
    inconsistent one the order is left to the engine, and this is one
    stable engine. *)
Section Sort.
Context {A : Type} (comparefn : A -> A -> number).

Definition SortCompare (x y : A) : Q :=
  match comparefn x y with
  | NaN => 0%Q
  | Fin v => v
  end.

Fixpoint insert (x : A) (l : list A) : list A :=
  match l with
  | [] => [x]
  | y :: l' => if Qle_bool (SortCompare x y) 0 then x :: l else y :: insert x l'
  end.

Definition Array_sort (l : list A) : list A := foldr insert [] l.

(** The elements the comparator ties with [x]. *)
Definition tied (x y : A) : bool := Qeq_bool (SortCompare x y) 0.

End Sort.

(** [array.reduce(f, init)] with a callback that may throw. *)
Definition reduce {A B : Type} (f : B -> A -> completion B) (init : B) (l : list A)
    : completion B :=
  foldl (fun acc x => cbind acc (fun b => f b x)) (Normal init) l.

(** The property names a fresh object literal inherits from
    [Object.prototype]; each holds a function (or, for [__proto__], the
    prototype object): a truthy value without a [push] method. *)
Definition Object_prototype : list jsstring :=
  map str ["constructor"; "__defineGetter__"; "__defineSetter__";
           "hasOwnProperty"; "__lookupGetter__"; "__lookupSetter__";
           "isPrototypeOf"; "propertyIsEnumerable"; "toString"; "valueOf";
           "__proto__"; "toLocaleString"]%string.

(** Arrays live in a heap, so that copying and sorting in place show. *)
Abbreviation loc := positive.
Abbreviation heap := (gmap positive (list SearchRow)).

(** The two state cells the effect sets. *)
Record State := {
  sortedRows : loc;
  groupedResults : gmap jsstring (list SearchRow)
}.

(** [row.doc_type || 'Otros']: the empty string is falsy, so a row
    without a type has the key [Otros]. *)
Definition group_key (row : SearchRow) : jsstring :=
  match doc_type row with
  | [] => str "Otros"
  | t => t
  end.

(** The callback of [reduce]: [acc[key]] finds an own array, or a property
    inherited from [Object.prototype], or nothing. *)
Definition group_row (acc : gmap jsstring (list SearchRow)) (row : SearchRow)
    : completion (gmap jsstring (list SearchRow)) :=
  let key := group_key row in
  match acc !! key with
  | Some group => Normal (<[key := group ++ [row]]> acc)
  | None =>
      if decide (key ∈ Object_prototype) then Throw TypeError
      else Normal (<[key := [row]]> acc)
  end.

Section WithBuiltins.
Context `{Builtins}.

(** [new Date(s).getTime()]; the empty string is an Invalid Date. *)
Definition getTime (s : jsstring) : number :=
  match s with
  | [] => NaN
  | _ => match Date_parse s with
         | Some t => Fin (inject_Z t)
         | None => NaN
         end
  end.

(** The comparator of the effect, lines 22 to 31. *)
Definition comparefn (sortBy : option jsstring) (a b : SearchRow) : number :=
  if decide (sortBy = Some (str "date")) then
    minus (getTime (default [] (date_modified b)))
          (getTime (default [] (date_modified a)))
  else if decide (sortBy = Some (str "type")) then
    Fin (inject_Z (localeCompare (doc_type a) (doc_type b)))
  else Fin (score b - score a).

(** A row is dated when its date parses; [time_of] is then its time. *)
Definition dated (r : SearchRow) : Prop :=
  exists t, getTime (default [] (date_modified r)) = Fin t.

Definition time_of (r : SearchRow) : Q :=
  match getTime (default [] (date_modified r)) with
  | Fin t => t
  | NaN => 0%Q
  end.

(** The sorted copy, as a value. *)
Definition processed (sortBy : option jsstring) (rows : list SearchRow) : list SearchRow :=
  Array_sort (comparefn sortBy) rows.

(** The effect of lines 18 to 43 on the array that the [rows] prop refers
    to: copy, sort the copy in place, group, set both state cells.  When
    the reducer throws, neither cell is set. *)
Definition organize (rows : loc) (sortBy : option jsstring) (h : heap)
    : completion (heap * State) :=
  let processedRows := fresh (dom h) in
  let h := <[processedRows := default [] (h !! rows)]> h in
  let h := alter (Array_sort (comparefn sortBy)) processedRows h in
  cbind (reduce group_row ∅ (default [] (h !! processedRows))) (fun grouped =>
  Normal (h, {| sortedRows := processedRows; groupedResults := grouped |})).

End WithBuiltins.
End ResultsList.

(** ** The session: the search bar wired to the application *)

Module Session.
Import JS JSON.

(** [<SearchBar onSubmit={handleSearch} .../>]: a submit from the search
    bar, up to the point where the backend call is awaited. *)
Definition submit (s : SearchBar.State) (w : App.World) : SearchBar.State * App.World :=
  SearchBar.handleSubmit App.handleSearch_begin s w.

(** [submit(text, projectId, filterOverride)] on the world alone. *)
Definition submit_world (text project : jsstring) (filterOverride : gmap jsstring json)
    (w : App.World) : App.World :=
  (submit {| SearchBar.q := text; SearchBar.project := project;
             SearchBar.isTyping := false; SearchBar.showSuggestions := true;
             SearchBar.filters := filterOverride; SearchBar.suggestions := [] |} w).2.

(** The parts of a refinement command, as [handleRefine] destructures it. *)
Definition command_type (refinement : jsstring) : jsstring :=
  default [] (split colon refinement !! 0%nat).

Definition command_value (refinement : jsstring) : option jsstring :=
  split colon refinement !! 1%nat.

(** The values of the type of [sortBy]. *)
Definition sort_keys : list jsstring := [str "relevance"; str "date"; str "type"].

(** A [sort] command whose payload is none of the sort keys. *)
Definition unknown_sort_key (refinement : jsstring) : Prop :=
  command_type refinement = str "sort" /\
  forall k, k ∈ sort_keys -> command_value refinement <> Some k.

(** A [filter] command whose payload [JSON.parse] rejects. *)
Definition malformed_filter (refinement : jsstring) : Prop :=
  command_type refinement = str "filter" /\
  JSON.parse (ToString (command_value refinement)) = None.

(** A command whose payload fails to parse. *)
Definition fails_to_parse (refinement : jsstring) : Prop :=
  unknown_sort_key refinement \/ malformed_filter refinement.

(** Only [sortBy] differs. *)
Definition same_but_sortBy (w w' : App.World) : Prop :=
  App.query (App.searchState (App.app w')) = App.query (App.searchState (App.app w)) /\
  App.projectId (App.searchState (App.app w')) = App.projectId (App.searchState (App.app w)) /\
  App.filters (App.searchState (App.app w')) = App.filters (App.searchState (App.app w)) /\
  App.rows (App.app w') = App.rows (App.app w) /\
  App.loading (App.app w') = App.loading (App.app w) /\
  App.error (App.app w') = App.error (App.app w) /\
  App.recentSearches (App.app w') = App.recentSearches (App.app w) /\
  App.localStorage w' = App.localStorage w /\
  App.backend w' = App.backend w.

Section WithBuiltins.
Context `{Builtins}.

(** One submit from the search bar together with what its backend call
    settles to; a rejected (blank) submit sends nothing, so nothing
    settles. *)
Record submission := {
  text : jsstring;
  project : jsstring;
  filterOverride : gmap jsstring json;
  result : App.outcome
}.

Definition perform (w : App.World) (x : submission) : App.World :=
  let w := submit_world (text x) (project x) (filterOverride x) w in
  match trim (text x) with
  | _ :: _ => App.handleSearch_settle (text x) (result x) w
  | [] => w
  end.

(** A sequence of submits, each settled before the next. *)
Definition run (w : App.World) (xs : list submission) : App.World :=
  foldl perform w xs.

End WithBuiltins.

End Session.

(** ** An instance of the library functions, for evaluating examples

    ASCII case mapping, code-unit order, ISO date-only strings
    (YYYY-MM-DD, read as UTC midnight) and JSON text for arrays of strings
    whose only characters in need of escaping are the quote and the
    backslash. *)

Module Example.
Import JS JSON.

Definition lower_unit (c : N) : N :=
  if (65 <=? c) && (c <=? 90) then c + 32 else c.

Fixpoint compare_units (a b : jsstring) : Z :=
  match a, b with
  | [], [] => 0
  | [], _ :: _ => -1
  | _ :: _, [] => 1
  | x :: a', y :: b' =>
      if x <? y then -1 else if y <? x then 1 else compare_units a' b'
  end.

Definition digits_value (ds : jsstring) : option Z :=
  if forallb is_digit ds
  then Some (fold_left (fun acc d => acc * 10 + (Z.of_N d - 48)) ds 0)%Z
  else None.

Definition leap (y : Z) : bool :=
  ((y mod 4 =? 0) && negb (y mod 100 =? 0) || (y mod 400 =? 0))%Z.

Definition days_in_month (y m : Z) : Z :=
  (if m =? 2 then (if leap y then 29 else 28)
   else if (m =? 4) || (m =? 6) || (m =? 9) || (m =? 11) then 30
   else 31)%Z.

(** Days from 1970-01-01 to the given civil date. *)
Definition days_from_civil (y m d : Z) : Z :=
  (let y' := if m <=? 2 then y - 1 else y in
   let era := y' / 400 in
   let yoe := y' - era * 400 in
   let mp := if m <=? 2 then m + 9 else m - 3 in
   let doy := (153 * mp + 2) / 5 + d - 1 in
   let doe := yoe * 365 + yoe / 4 - yoe / 100 + doy in
   era * 146097 + doe - 719468)%Z.

Definition parse_iso_date (s : jsstring) : option Z :=
  match s with
  | [y1; y2; y3; y4; 45; m1; m2; 45; d1; d2] =>
      match digits_value [y1; y2; y3; y4], digits_value [m1; m2], digits_value [d1; d2] with
      | Some y, Some m, Some d =>
          if ((1 <=? m) && (m <=? 12) && (1 <=? d) && (d <=? days_in_month y m))%Z
          then Some (days_from_civil y m d * 86400000)%Z
          else None
      | _, _, _ => None
      end
  | _ => None
  end.

Definition quote_string (s : jsstring) : jsstring :=
  quoted (flat_map (fun c => if (c =? dquote) || (c =? backslash)
                             then [backslash; c] else [c]) s).

Definition stringify_strings (l : list jsstring) : jsstring :=
  str "[" ++ join (str ",") (map quote_string l) ++ str "]".

Definition builtins : Builtins := {|
  toLowerCase := map lower_unit;
  localeCompare := compare_units;
  Date_parse := parse_iso_date;
  JSON_stringify := stringify_strings
|}.

(** Rows and worlds to evaluate on. *)
Definition row (id : string) (s : Q) (ty : string) (date : option string) : App.SearchRow :=
  {| App.document_id := str id; App.title := str id; App.snippet := None;
     App.score := s; App.doc_type := str ty; App.category := None;
     App.date_modified := str <$> date |}.

Definition world0 : App.World :=
  {| App.app := App.initialState; App.localStorage := ∅; App.backend := [] |}.

(** A world in which [dateRange] is already set to [week]. *)
Definition world_week : App.World :=
  App.onApp (App.setSearchState (fun prev =>
    {| App.query := App.query prev; App.projectId := App.projectId prev;
       App.filters := {[ str "dateRange" := JStr (str "week") ]};
       App.sortBy := App.sortBy prev |})) world0.

(** [filter:{"category":"Planos"}] *)
Definition filter_category_Planos : jsstring :=
  str "filter:{" ++ quoted (str "category") ++ str ":" ++ quoted (str "Planos") ++ str "}".

End Example.

(** ** App.tsx: the effect that loads the recent searches *)

Module AppMount.
Import JS JSON App.

Definition is_leading_surrogate (c : N) : bool := (55296 <=? c) && (c <=? 56319).
Definition is_trailing_surrogate (c : N) : bool := (56320 <=? c) && (c <=? 57343).

Definition hex_digit (d : N) : N := if d <? 10 then 48 + d else 87 + d.

(** [UnicodeEscape]: backslash, [u] and four lower-case hex digits. *)
Definition unicode_escape (c : N) : jsstring :=
  [backslash; 117; hex_digit (c / 4096 mod 16); hex_digit (c / 256 mod 16);
   hex_digit (c / 16 mod 16); hex_digit (c mod 16)].

(** The escape of one code unit that is not part of a surrogate pair. *)
Definition quote_unit (c : N) : jsstring :=
  if c =? 8 then [backslash; 98]
  else if c =? 9 then [backslash; 116]
  else if c =? 10 then [backslash; 110]
  else if c =? 12 then [backslash; 102]
  else if c =? 13 then [backslash; 114]
  else if c =? 34 then [backslash; 34]
  else if c =? 92 then [backslash; 92]
  else if (c <? 32) || is_leading_surrogate c || is_trailing_surrogate c
  then unicode_escape c
  else [c].

(** The characters of [QuoteJSONString]: a surrogate pair goes through as
    it is, a lone surrogate is escaped. *)
Fixpoint quote_units (s : jsstring) : jsstring :=
  match s with
  | [] => []
  | c :: s' =>
      if is_leading_surrogate c then
        match s' with
        | d :: s'' =>
            if is_trailing_surrogate d then c :: d :: quote_units s''
            else quote_unit c ++ quote_units s'
        | [] => quote_unit c
        end
      else quote_unit c ++ quote_units s'
  end.

Definition QuoteJSONString (s : jsstring) : jsstring := quoted (quote_units s).

(** [JSON.stringify] on an array of strings. *)
Definition stringify (l : list jsstring) : jsstring :=
  str "[" ++ join (str ",") (map QuoteJSONString l) ++ str "]".

(** A code unit has sixteen bits. *)
Definition code_units (s : jsstring) : Prop := Forall (fun c => c < 65536) s.

(** The strings of a parsed value that is an array of strings. *)
Definition as_strings (v : json) : option (list jsstring) :=
  match v with
  | JArr elements =>
      mapM (fun e => match e with JStr s => Some s | _ => None end) elements
  | _ => None
  end.

(** What the effect of lines 43 to 48 leaves: the world, with the state
    a list of strings; or a parsed value of another shape as the state;
    or the error that [JSON.parse] threw. *)
Inductive mounted :=
  | Loaded (w : World)
  | LoadedOther (v : json)
  | LoadThrew (e : exn).

(** [const saved = localStorage.getItem('recentSearches');
     if (saved) setRecentSearches(JSON.parse(saved))] *)
Definition loadRecentSearches (w : World) : mounted :=
  match localStorage w !! str "recentSearches" with
  | Some (c :: saved) =>
      match JSON.parse (c :: saved) with
      | Some v =>
          match as_strings v with
          | Some l => Loaded (onApp (setRecentSearches (fun _ => l)) w)
          | None => LoadedOther v
          end
      | None => LoadThrew SyntaxError
      end
  | Some [] | None => Loaded w
  end.

(** A new session over the storage that [w] leaves behind. *)
Definition next_session (w : World) : World :=
  {| app := initialState; localStorage := localStorage w; backend := [] |}.

(** The library functions with [JSON.stringify] as above. *)
Definition builtins : Builtins := {|
  toLowerCase := toLowerCase (Builtins := Example.builtins);
  localeCompare := localeCompare (Builtins := Example.builtins);
  Date_parse := Date_parse (Builtins := Example.builtins);
  JSON_stringify := stringify
|}.

End AppMount.

(** ** SearchBar.tsx: the event handlers *)

Module SearchBarEvents.
Import JS JSON SearchBar.

Definition setQ (v : jsstring) (s : State) : State :=
  {| q := v; project := project s; isTyping := isTyping s;
     showSuggestions := showSuggestions s; filters := filters s;
     suggestions := suggestions s |}.

Definition setFilters (f : gmap jsstring json -> gmap jsstring json) (s : State) : State :=
  {| q := q s; project := project s; isTyping := isTyping s;
     showSuggestions := showSuggestions s; filters := f (filters s);
     suggestions := suggestions s |}.

(** [onChange] of the category select:
    [setFilters(prev => ({ ...prev, category: e.target.value }))]. *)
Definition selectCategory (value : jsstring) (s : State) : State :=
  setFilters (fun prev => <[str "category" := JStr value]> prev) s.

(** [onChange] of the date select. *)
Definition selectDateRange (value : jsstring) (s : State) : State :=
  setFilters (fun prev => <[str "dateRange" := JStr value]> prev) s.

(** [onClick] of a suggestion: [setQ(suggestion.text); handleSubmit()].
    [handleSubmit] is the callback of the current render, so it reads the
    [q] of the state the click happened in. *)
Definition clickSuggestion {W : Type}
    (onSubmit : jsstring -> option jsstring -> option (gmap jsstring json) -> W -> W)
    (suggestion : SearchSuggestion) (s : State) (w : W) : State * W :=
  let '(s', w') := handleSubmit onSubmit s w in
  (setQ (text suggestion) s', w').

(** [handleKeyPress]: only Enter submits. *)
Definition handleKeyPress {W : Type}
    (onSubmit : jsstring -> option jsstring -> option (gmap jsstring json) -> W -> W)
    (key : jsstring) (s : State) (w : W) : State * W :=
  if decide (key = str "Enter") then handleSubmit onSubmit s w else (s, w).

(** [disabled={!q.trim()}] on the search button. *)
Definition searchButtonDisabled (s : State) : bool :=
  match trim (q s) with
  | [] => true
  | _ :: _ => false
  end.

End SearchBarEvents.

(** ** ResultsList.tsx: the filter tags and the group headers *)

Module ResultsView.
Import JS App ResultsList.

(** A [Set] of strings, in insertion order. *)
Definition Set_has (x : jsstring) (s : list jsstring) : bool := bool_decide (x ∈ s).
Definition Set_delete (x : jsstring) (s : list jsstring) : list jsstring :=
  filter (fun y => y <> x) s.
Definition Set_add (x : jsstring) (s : list jsstring) : list jsstring :=
  if Set_has x s then s else s ++ [x].

(** [handleFilterToggle]: the updater of [setActiveFilters]. *)
Definition handleFilterToggle (flt : jsstring) (prev : list jsstring) : list jsstring :=
  let newFilters := prev in
  if Set_has flt newFilters then Set_delete flt newFilters
  else Set_add flt newFilters.

(** The counts in the group headers, [typeRows.length] for each entry. *)
Definition group_counts (grouped : gmap jsstring (list SearchRow)) : list nat :=
  (fun kv => length kv.2) <$> map_to_list grouped.

End ResultsView.

(** ** ResultCard.tsx *)

Module ResultCard.
Import JS.

Record RelevanceInfo := {
  class : jsstring;
  label : jsstring;
  icon : jsstring
}.

(** The doubles written [0.8] and [0.5], as the rationals they are. *)
Definition double_0_8 : Q := 3602879701896397 # 4503599627370496.
Definition double_0_5 : Q := 1 # 2.

(** [score > t] *)
Definition gt (score t : Q) : bool := negb (Qle_bool score t).

Definition getRelevanceInfo (score : Q) : RelevanceInfo :=
  if gt score double_0_8 then
    {| class := str "high-relevance"; label := str "Alta Relevancia";
       icon := [55356; 57263] |}
  else if gt score double_0_5 then
    {| class := str "medium-relevance"; label := str "Relevancia Media";
       icon := [55357; 56525] |}
  else
    {| class := str "low-relevance"; label := str "Baja Relevancia";
       icon := [55357; 56524] |}.

(** [contentPreview] *)
Definition contentPreview (isExpanded : bool) (content : jsstring) : jsstring :=
  if isExpanded then content
  else take 200 content ++ (if (200 <? length content)%nat then str "..." else []).

(** The expand button is rendered when [content.length > 200]. *)
Definition showsExpandButton (content : jsstring) : bool := (200 <? length content)%nat.

(** The commands that the three quick actions pass to [onRefine]; the
    category is [metadata?.category], which may be [undefined]. *)
Definition similarTo (title : jsstring) : jsstring :=
  str "similar to: " ++ quoted title.
Definition inDocument (title : jsstring) : jsstring :=
  str "in document: " ++ quoted title.
Definition filterByCategory (category : option jsstring) : jsstring :=
  str "category: " ++ quoted (ToString category).

Definition quickActions (title : jsstring) (category : option jsstring) : list jsstring :=
  [similarTo title; inDocument title; filterByCategory category].

End ResultCard.

(** * Properties *)

(** ** JSON.parse never runs out of fuel *)

Module JSONFacts.
Import JS JSON.

Lemma skip_ws_length s : (length (skip_ws s) <= length s)%nat.
Proof.
  induction s as [|c s IH]; simpl; [lia|].
  destruct (is_ws c); simpl; lia.
Qed.

Lemma skip_ws_cons s c r :
  skip_ws s = c :: r -> (length r < length s)%nat.
Proof.
  intros E. pose proof (skip_ws_length s) as L. rewrite E in L. simpl in L. lia.
Qed.

Lemma parse_chars_length s acc v r :
  parse_chars s acc = Some (v, r) -> (length r < length s)%nat.
Proof.
  remember (length s) as n eqn:Hn.
  revert s Hn acc v r. induction n as [n IH] using lt_wf_ind.
  intros s -> acc v r. destruct s as [|c s']; simpl; [discriminate|].
  destruct (c =? dquote).
  { intros [= _ <-]. lia. }
  destruct (c =? backslash).
  - destruct s' as [|e s'']; [discriminate|].
    destruct (e =? 117).
    + destruct s'' as [|h1 [|h2 [|h3 [|h4 s3]]]]; try discriminate.
      destruct (hex4 h1 h2 h3 h4); [|discriminate].
      intros E. eapply IH in E; [| |reflexivity]; simpl in *; lia.
    + destruct (unescape e); [|discriminate].
      intros E. eapply IH in E; [| |reflexivity]; simpl in *; lia.
  - destruct (c <? 32); [discriminate|].
    intros E. eapply IH in E; [| |reflexivity]; simpl in *; lia.
Qed.

Lemma span_digits_length s ds r :
  span_digits s = (ds, r) -> (length r <= length s)%nat.
Proof.
  revert ds r. induction s as [|c s IH]; simpl; intros ds r.
  - intros [= _ <-]. simpl. lia.
  - destruct (is_digit c).
    + destruct (span_digits s) as [ds' r'] eqn:E. intros [= _ <-].
      specialize (IH _ _ eq_refl). lia.
    + intros [= _ <-]. simpl. lia.
Qed.

Lemma parse_exp_length lexeme s l r :
  parse_exp lexeme s = Some (l, r) -> (length r <= length s)%nat.
Proof.
  unfold parse_exp. destruct s as [|e s']; [intros [= _ <-]; lia|].
  destruct ((e =? 101) || (e =? 69)); [|intros [= _ <-]; lia].
  set (p := match s' with [] => _ | _ => _ end).
  assert (Hp : (length p.2 <= length s')%nat).
  { subst p. destruct s' as [|c r']; simpl; [lia|].
    destruct ((c =? 43) || (c =? 45)); simpl; lia. }
  destruct p as [sign r1]. simpl in Hp.
  destruct (span_digits r1) as [ds r2] eqn:E.
  apply span_digits_length in E.
  destruct ds; [discriminate|]. intros [= _ <-]. simpl. lia.
Qed.

Lemma parse_frac_length lexeme s l r :
  parse_frac lexeme s = Some (l, r) -> (length r <= length s)%nat.
Proof.
  unfold parse_frac. destruct s as [|c s']; [apply parse_exp_length|].
  destruct (c =? 46); [|apply parse_exp_length].
  destruct (span_digits s') as [ds r1] eqn:E.
  apply span_digits_length in E.
  destruct ds; [discriminate|].
  intros E'. apply parse_exp_length in E'. simpl. lia.
Qed.

Lemma parse_number_length s l r :
  parse_number s = Some (l, r) -> (length r < length s)%nat.
Proof.
  unfold parse_number.
  set (p := match s with [] => _ | _ => _ end).
  assert (Hp : (length p.2 <= length s)%nat).
  { subst p. destruct s as [|c r']; simpl; [lia|].
    destruct (c =? 45); simpl; lia. }
  destruct p as [sign s1]. simpl in Hp.
  destruct s1 as [|d r1]; [discriminate|]. simpl in Hp.
  destruct (d =? 48).
  { intros E. apply parse_frac_length in E. lia. }
  destruct (is_digit d); [|discriminate].
  destruct (span_digits r1) as [ds r2] eqn:E.
  apply span_digits_length in E.
  intros E'. apply parse_frac_length in E'. lia.
Qed.

Lemma shrinks_mono p s s' :
  shrinks p s' -> (length s' <= length s)%nat -> shrinks p s.
Proof. destruct p; simpl; auto; lia. Qed.

Lemma parse_shrinks fuel :
  (forall s, shrinks (parse_value fuel s) s) /\
  (forall s acc, shrinks (parse_elements fuel s acc) s) /\
  (forall s acc, shrinks (parse_members fuel s acc) s).
Proof.
  induction fuel as [|fuel (IHv & IHe & IHm)]; [simpl; auto|].
  split; [|split].
  - intros s. cbn [parse_value].
    destruct (skip_ws s) as [|c s'] eqn:Es; [exact I|].
    apply skip_ws_cons in Es.
    destruct (c =? 123).
    { destruct (skip_ws s') as [|c' r] eqn:Es'; [exact I|].
      apply skip_ws_cons in Es'.
      destruct (c' =? 125); [simpl; lia|].
      eapply shrinks_mono; [apply IHm|lia]. }
    destruct (c =? 91).
    { destruct (skip_ws s') as [|c' r] eqn:Es'; [exact I|].
      apply skip_ws_cons in Es'.
      destruct (c' =? 93); [simpl; lia|].
      eapply shrinks_mono; [apply IHe|lia]. }
    destruct (c =? dquote).
    { destruct (parse_chars s' []) as [[v r]|] eqn:E; [|exact I].
      apply parse_chars_length in E. simpl. lia. }
    destruct (startsWith _ _).
    { cbn [shrinks]. rewrite length_drop. simpl. lia. }
    destruct (startsWith _ _).
    { cbn [shrinks]. rewrite length_drop. simpl. lia. }
    destruct (startsWith _ _).
    { cbn [shrinks]. rewrite length_drop. simpl. lia. }
    destruct (parse_number (c :: s')) as [[l r]|] eqn:E; [|exact I].
    apply parse_number_length in E. simpl in *. lia.
  - intros s acc. cbn [parse_elements].
    pose proof (IHv s) as Hv.
    destruct (parse_value fuel s) as [v r| |]; try exact I.
    simpl in Hv.
    destruct (skip_ws r) as [|c r'] eqn:Er; [exact I|].
    apply skip_ws_cons in Er.
    destruct (c =? 44).
    { eapply shrinks_mono; [apply IHe|lia]. }
    destruct (c =? 93); simpl; [lia|exact I].
  - intros s acc. cbn [parse_members].
    destruct (skip_ws s) as [|q s1] eqn:Es; [exact I|].
    apply skip_ws_cons in Es.
    destruct (q =? dquote); [|exact I].
    destruct (parse_chars s1 []) as [[k s2]|] eqn:E; [|exact I].
    apply parse_chars_length in E.
    destruct (skip_ws s2) as [|c s3] eqn:Es2; [exact I|].
    apply skip_ws_cons in Es2.
    destruct (c =? colon); [|exact I].
    pose proof (IHv s3) as Hv.
    destruct (parse_value fuel s3) as [v r| |]; try exact I.
    simpl in Hv.
    destruct (skip_ws r) as [|c' r'] eqn:Er; [exact I|].
    apply skip_ws_cons in Er.
    destruct (c' =? 44).
    { eapply shrinks_mono; [apply IHm|lia]. }
    destruct (c' =? 125); simpl; [lia|exact I].
Qed.

Lemma parse_fuel fuel :
  (forall s, (2 * length s < fuel)%nat -> parse_value fuel s <> OutOfFuel) /\
  (forall s acc, (2 * length s + 1 < fuel)%nat -> parse_elements fuel s acc <> OutOfFuel) /\
  (forall s acc, (2 * length s + 1 < fuel)%nat -> parse_members fuel s acc <> OutOfFuel).
Proof.
  induction fuel as [|fuel (IHv & IHe & IHm)]; [repeat split; intros; lia|].
  split; [|split].
  - intros s Hf. cbn [parse_value].
    destruct (skip_ws s) as [|c s'] eqn:Es; [discriminate|].
    apply skip_ws_cons in Es.
    destruct (c =? 123).
    { destruct (skip_ws s') as [|c' r] eqn:Es'; [discriminate|].
      destruct (c' =? 125); [discriminate|]. apply IHm. lia. }
    destruct (c =? 91).
    { destruct (skip_ws s') as [|c' r] eqn:Es'; [discriminate|].
      destruct (c' =? 93); [discriminate|]. apply IHe. lia. }
    destruct (c =? dquote).
    { destruct (parse_chars s' []) as [[v r]|]; discriminate. }
    repeat (destruct (startsWith _ _); [discriminate|]).
    destruct (parse_number (c :: s')) as [[l r]|]; discriminate.
  - intros s acc Hf. cbn [parse_elements].
    pose proof (proj1 (parse_shrinks fuel) s) as Hs.
    pose proof (IHv s) as Hv.
    destruct (parse_value fuel s) as [v r| |]; [|discriminate|exfalso; apply Hv; [lia|reflexivity]].
    simpl in Hs.
    destruct (skip_ws r) as [|c r'] eqn:Er; [discriminate|].
    apply skip_ws_cons in Er.
    destruct (c =? 44); [apply IHe; lia|].
    destruct (c =? 93); discriminate.
  - intros s acc Hf. cbn [parse_members].
    destruct (skip_ws s) as [|q s1] eqn:Es; [discriminate|].
    apply skip_ws_cons in Es.
    destruct (q =? dquote); [|discriminate].
    destruct (parse_chars s1 []) as [[k s2]|] eqn:E; [|discriminate].
    apply parse_chars_length in E.
    destruct (skip_ws s2) as [|c s3] eqn:Es2; [discriminate|].
    apply skip_ws_cons in Es2.
    destruct (c =? colon); [|discriminate].
    pose proof (proj1 (parse_shrinks fuel) s3) as Hs.
    pose proof (IHv s3) as Hv.
    destruct (parse_value fuel s3) as [v r| |]; [|discriminate|exfalso; apply Hv; [lia|reflexivity]].
    simpl in Hs.
    destruct (skip_ws r) as [|c' r'] eqn:Er; [discriminate|].
    apply skip_ws_cons in Er.
    destruct (c' =? 44); [apply IHm; lia|].
    destruct (c' =? 125); discriminate.
Qed.

(** [parse] is total: the fuel it passes always suffices, so [None] is
    a syntax error and never an exhausted bound. *)
Theorem fuel_enough text :
  parse_value (2 * length text + 1) text <> OutOfFuel.
Proof. apply parse_fuel. lia. Qed.

End JSONFacts.

(** ** Strings *)

Module StringFacts.
Import JS.

Lemma split_nonempty sep s : split sep s <> [].
Proof.
  destruct s as [|c s]; simpl; [discriminate|].
  destruct (c =? sep); [discriminate|].
  destruct (split sep s); discriminate.
Qed.

(** No piece that [split] returns contains the separator. *)
Lemma split_no_separator sep s : Forall (fun seg => sep ∉ seg) (split sep s).
Proof.
  induction s as [|c s IH]; simpl.
  - repeat constructor. apply not_elem_of_nil.
  - destruct (c =? sep) eqn:E.
    + constructor; [apply not_elem_of_nil|exact IH].
    + apply N.eqb_neq in E.
      destruct (split sep s) as [|seg segs]; inversion IH; subst.
      * repeat constructor. rewrite list_elem_of_singleton. congruence.
      * constructor; [|assumption].
        rewrite elem_of_cons. intros [->|?]; tauto.
Qed.

(** [split] only cuts: joining the pieces with the separator gives the
    string back. *)
Lemma split_join sep s : join [sep] (split sep s) = s.
Proof.
  induction s as [|c s IH]; [reflexivity|]. simpl.
  destruct (c =? sep) eqn:E.
  - apply N.eqb_eq in E. subst c.
    pose proof (split_nonempty sep s) as Hne.
    destruct (split sep s) as [|seg segs]; [congruence|].
    simpl in *. now rewrite IH.
  - destruct (split sep s) as [|seg segs]; simpl in *; [now subst|].
    destruct segs; simpl in *; now rewrite <- IH.
Qed.

Lemma trimStart_nil_iff s : trimStart s = [] <-> forallb is_whitespace s = true.
Proof.
  induction s as [|c s IH]; simpl; [tauto|].
  destruct (is_whitespace c); simpl; [exact IH|].
  split; discriminate.
Qed.

(** [s.trim()] is empty exactly when [s] is white space throughout. *)
Lemma trim_nil_iff s : trim s = [] <-> forallb is_whitespace s = true.
Proof.
  unfold trim, trimEnd. split.
  - intros E. apply (f_equal (@rev N)) in E. rewrite rev_involutive in E.
    simpl in E. apply trimStart_nil_iff in E.
    rewrite forallb_forall in E.
    assert (Hs : forall x, In x (trimStart s) -> is_whitespace x = true).
    { intros x Hx. apply E. apply in_rev. rewrite rev_involutive. exact Hx. }
    clear E. induction s as [|c s IH]; simpl in *; [reflexivity|].
    destruct (is_whitespace c) eqn:Ec; simpl.
    + apply IH. exact Hs.
    + rewrite <- Ec. apply Hs. now left.
  - intros E. apply trimStart_nil_iff in E. rewrite E. reflexivity.
Qed.

Lemma startsWith_spec s t : startsWith s t = true <-> exists post, s = t ++ post.
Proof.
  revert s. induction t as [|d t IH]; intros s; simpl.
  - destruct s; (split; [intros _; eexists; reflexivity|reflexivity]).
  - destruct s as [|c s]; simpl.
    + split; [discriminate|]. intros [post E]. discriminate.
    + rewrite andb_true_iff, N.eqb_eq, IH. split.
      * intros [-> [post ->]]. eauto.
      * intros [post [= -> ->]]. eauto.
Qed.

(** [s.includes(t)] holds exactly when [t] is a contiguous part of [s]. *)
Lemma includes_spec s t :
  includes s t = true <-> exists pre post, s = pre ++ t ++ post.
Proof.
  induction s as [|c s IH]; cbn [includes].
  - rewrite orb_false_r, startsWith_spec. split.
    + intros [post E]. exists [], post. exact E.
    + intros (pre & post & E). destruct pre; simpl in E; [eauto|discriminate].
  - rewrite orb_true_iff, startsWith_spec, IH. split.
    + intros [[post E]|(pre & post & E)].
      * exists [], post. exact E.
      * exists (c :: pre), post. simpl. now rewrite E.
    + intros (pre & post & E). destruct pre as [|c' pre]; simpl in E.
      * left. eauto.
      * right. injection E as -> E. eauto.
Qed.

End StringFacts.

(** ** The refinement protocol: [handleRefine] *)

Module RefineFacts.
Import JS JSON App Session Example.

(** The payload that [handleRefine] reads never contains a colon: the
    command is cut at every colon and the second piece is taken. *)
Lemma payload_has_no_colon refinement v :
  command_value refinement = Some v -> colon ∉ v.
Proof.
  unfold command_value. intros E.
  pose proof (StringFacts.split_no_separator colon refinement) as F.
  rewrite Forall_forall in F. apply F.
  eapply list_elem_of_lookup_2. exact E.
Qed.

(** The payload is the text between the first colon and the second, if
    there is a second: what follows a second colon is dropped. *)
Lemma payload_is_second_piece refinement v :
  command_value refinement = Some v ->
  exists rest, split colon refinement = command_type refinement :: v :: rest
  /\ refinement = command_type refinement ++ [colon] ++ v
                   ++ match rest with
                      | [] => []
                      | _ :: _ => [colon] ++ join [colon] rest
                      end.
Proof.
  unfold command_value, command_type. intros E.
  pose proof (StringFacts.split_join colon refinement) as J.
  destruct (split colon refinement) as [|t [|v' rest]]; try discriminate.
  injection E as ->. exists rest. split; [reflexivity|].
  rewrite <- J. simpl. destruct rest; [now rewrite app_nil_r|reflexivity].
Qed.

(** C1: a command is meant to split at its first colon only, so that
    [filter:{"category":"Planos"}] merges [category] into the filters and
    keeps [dateRange].  [handleRefine] cuts at every colon: the payload it
    parses is [{"category"], which is not JSON, and the state updater
    throws instead of merging. *)
Theorem handleRefine_filter_json_is_cut :
  split colon filter_category_Planos =
    [str "filter"; str "{" ++ quoted (str "category"); quoted (str "Planos") ++ str "}"]
  /\ JSON.parse (str "{" ++ quoted (str "category")) = None
  /\ filters (searchState (app world_week)) !! str "dateRange" = Some (JStr (str "week"))
  /\ handleRefine filter_category_Planos world_week = Throw SyntaxError.
Proof. repeat split; vm_compute; reflexivity. Qed.

(** The merge is shallow: a key that the parsed value does not carry
    keeps what it held. *)
Lemma spread_keeps_other_keys (target : gmap jsstring json) v k :
  k ∉ (own_properties v).*1 -> spread target v !! k = target !! k.
Proof.
  unfold spread. generalize (own_properties v). intros props. revert target.
  induction props as [|[k' v'] props IH]; intros target Hk; [reflexivity|].
  simpl in *. apply not_elem_of_cons in Hk as [Hne Hk].
  rewrite IH by exact Hk. now apply lookup_insert_ne.
Qed.

(** What the merge does once the payload reaches it whole: with the same
    text parsed directly, [category] is added and [dateRange] is kept. *)
Lemma spread_category_keeps_dateRange :
  exists v, JSON.parse (str "{" ++ quoted (str "category") ++ str ":"
                         ++ quoted (str "Planos") ++ str "}") = Some v
  /\ spread (filters (searchState (app world_week))) v !! str "category"
       = Some (JStr (str "Planos"))
  /\ spread (filters (searchState (app world_week))) v !! str "dateRange"
       = Some (JStr (str "week")).
Proof. eexists. repeat split; vm_compute; reflexivity. Qed.

(** No sort key is [bogus]. *)
Lemma bogus_is_unknown : unknown_sort_key (str "sort:bogus").
Proof.
  split; [reflexivity|].
  intros k Hk. unfold sort_keys in Hk.
  rewrite !elem_of_cons, elem_of_nil in Hk.
  destruct Hk as [->|[->|[->|[]]]]; vm_compute; discriminate.
Qed.

(** C2: a command whose payload fails to parse is meant to be ignored,
    the session going on with its state as it was.  [handleRefine]
    checks nothing.  [sort:bogus] stores [bogus] as the sort key, a
    value outside the type of [sortBy]; [filter:{category}] makes the
    state updater throw the error of [JSON.parse], which nothing
    catches. *)
Theorem handleRefine_unparsed_payload_is_not_ignored :
  fails_to_parse (str "sort:bogus")
  /\ sortBy (searchState (app world0)) = Some (str "relevance")
  /\ (exists w', handleRefine (str "sort:bogus") world0 = Normal w'
                 /\ sortBy (searchState (app w')) = Some (str "bogus"))
  /\ handleRefine (str "sort:bogus") world0 <> Normal world0
  /\ fails_to_parse (str "filter:{category}")
  /\ handleRefine (str "filter:{category}") world_week = Throw SyntaxError
  /\ handleRefine (str "filter:{category}") world_week <> Normal world_week.
Proof.
  split; [left; exact bogus_is_unknown|].
  split; [reflexivity|].
  split; [eexists; split; reflexivity|].
  split.
  { intros E.
    assert (E' : sortBy (searchState (app world0)) = Some (str "bogus")).
    { change (match Normal world0 with
              | Normal w => sortBy (searchState (app w))
              | Throw _ => None
              end = Some (str "bogus")).
      rewrite <- E. reflexivity. }
    vm_compute in E'. discriminate. }
  split; [right; split; vm_compute; reflexivity|].
  split; [vm_compute; reflexivity|].
  vm_compute. discriminate.
Qed.

(** [sort:bogus] is not a no-op. *)
Lemma sort_bogus_changes_state :
  fails_to_parse (str "sort:bogus")
  /\ handleRefine (str "sort:bogus") world0 <> Normal world0.
Proof.
  split; [left; exact bogus_is_unknown|].
  intros E.
  assert (E' : sortBy (searchState (app world0)) = Some (str "bogus")).
  { change (match Normal world0 with
            | Normal w => sortBy (searchState (app w))
            | Throw _ => None
            end = Some (str "bogus")).
    rewrite <- E. reflexivity. }
  vm_compute in E'. discriminate.
Qed.

(** In general: a [sort] command whose payload is none of the sort keys
    does not throw and sends nothing to the backend; the payload is
    stored as the sort key unchecked, and the rest of the session is
    unchanged. *)
Theorem handleRefine_unknown_sort_key refinement w :
  unknown_sort_key refinement ->
  exists w', handleRefine refinement w = Normal w'
    /\ sortBy (searchState (app w')) = command_value refinement
    /\ same_but_sortBy w w'.
Proof.
  unfold unknown_sort_key, command_type, command_value, handleRefine.
  intros [Et _]. rewrite Et.
  destruct (decide (str "sort" = str "sort")) as [_|n]; [|congruence].
  eexists. split; [reflexivity|]. split; [reflexivity|].
  repeat split.
Qed.

Lemma handleRefine_unknown_sort_key_witness :
  exists w', handleRefine (str "sort:bogus") world0 = Normal w'
    /\ sortBy (searchState (app w')) = command_value (str "sort:bogus")
    /\ same_but_sortBy world0 w'.
Proof.
  apply (handleRefine_unknown_sort_key (str "sort:bogus") world0).
  split; [reflexivity|].
  intros k Hk. unfold sort_keys in Hk.
  rewrite !elem_of_cons, elem_of_nil in Hk.
  destruct Hk as [->|[->|[->|[]]]]; vm_compute; discriminate.
Defined.

(** The downstream reading of such a key: [ResultsList] sorts by
    relevance for every key other than [date] and [type]. *)
Lemma unknown_sort_key_sorts_by_relevance `{Builtins} sortBy a b :
  sortBy <> Some (str "date") -> sortBy <> Some (str "type") ->
  ResultsList.comparefn sortBy a b = Fin (score b - score a).
Proof.
  intros Hd Ht. unfold ResultsList.comparefn.
  destruct (decide (sortBy = Some (str "date"))); [contradiction|].
  destruct (decide (sortBy = Some (str "type"))); [contradiction|reflexivity].
Qed.

(** A [filter] command whose payload is not JSON: the parse error
    escapes from the state updater, and nothing catches it. *)
Lemma handleRefine_malformed_filter_throws refinement w :
  malformed_filter refinement -> handleRefine refinement w = Throw SyntaxError.
Proof.
  unfold malformed_filter, command_type, command_value, handleRefine.
  intros [Et Ep]. rewrite Et.
  destruct (decide (str "filter" = str "sort")) as [e|_];
    [vm_compute in e; discriminate|].
  destruct (decide (str "filter" = str "filter")) as [_|n]; [|congruence].
  now rewrite Ep.
Qed.

(** Text that is not JSON after [filter], and [filter] with no payload
    at all (where [JSON.parse] is given [undefined]). *)
Example filter_malformed_throws :
  handleRefine (str "filter:{category}") world_week = Throw SyntaxError
  /\ handleRefine (str "filter") world_week = Throw SyntaxError.
Proof. split; vm_compute; reflexivity. Qed.

(** A payload that does parse is merged: [filter:{}] changes nothing. *)
Example filter_empty_object :
  handleRefine (str "filter:{}") world_week = Normal world_week.
Proof. vm_compute. reflexivity. Qed.

(** C3: [load:more] is meant to ask the backend for the next page.
    [handleRefine] has no case for [load]: the command takes the default
    branch and is searched for as the query text [load:more], with the
    project dropped and the loading flag raised. *)
Theorem handleRefine_load_more_is_a_query w :
  handleRefine (str "load:more") w
    = Normal (handleSearch_begin (str "load:more") None None w)
  /\ backend (handleSearch_begin (str "load:more") None None w)
    = backend w ++ [{| req_query := str "load:more"; req_project_id := None;
                       top_k := 12; probes := 10 |}]
  /\ query (searchState (app (handleSearch_begin (str "load:more") None None w)))
    = str "load:more"
  /\ loading (app (handleSearch_begin (str "load:more") None None w)) = true.
Proof. repeat split. Qed.

End RefineFacts.

(** ** Submitting a search: [handleSubmit] and [handleSearch] *)

Module SubmitFacts.
Import JS JSON App Session Example.

(** An accepted submit passes the search bar's filters on, whole. *)
Lemma submit_world_accepted text project filterOverride w :
  trim text <> [] ->
  submit_world text project filterOverride w
    = handleSearch_begin text (SearchBar.or_undefined project)
                         (Some filterOverride) w.
Proof.
  intros Ht. unfold submit_world, submit, SearchBar.handleSubmit. simpl.
  destruct (trim text); [congruence|reflexivity].
Qed.

(** C4, as stated, fails: with [dateRange] set to [week], a submit whose
    filters hold only [category] leaves no [dateRange] behind. *)
Lemma submit_drops_dateRange :
  let override : gmap jsstring json := {[ str "category" := JStr (str "Planos") ]} in
  let w' := submit_world (str "plano") [] override world_week in
  trim (str "plano") <> []
  /\ override !! str "dateRange" = None
  /\ filters (searchState (app world_week)) !! str "dateRange" = Some (JStr (str "week"))
  /\ filters (searchState (app w')) !! str "dateRange" = None.
Proof. repeat split; vm_compute; congruence. Qed.

(** C4 (amended): on an accepted submit the filter override replaces the
    current filters as a whole: a key of the override has the override's
    value afterwards, and a key that the override lacks is absent
    afterwards, whatever it held before.  Only a search started without a
    filter argument keeps the current filters. *)
Theorem submit_replaces_filters text project filterOverride w :
  trim text <> [] ->
  filters (searchState (app (submit_world text project filterOverride w)))
    = filterOverride
  /\ (forall k, filters (searchState (app (submit_world text project filterOverride w))) !! k
                = filterOverride !! k)
  /\ (forall projectId,
        filters (searchState (app (handleSearch_begin text projectId None w)))
        = filters (searchState (app w))).
Proof.
  intros Ht. rewrite submit_world_accepted by exact Ht.
  repeat split.
Qed.

Lemma submit_replaces_filters_witness :
  let override : gmap jsstring json := {[ str "category" := JStr (str "Planos") ]} in
  filters (searchState (app (submit_world (str "plano") [] override world_week)))
    = override
  /\ (forall k, filters (searchState (app (submit_world (str "plano") [] override world_week))) !! k
                = override !! k)
  /\ (forall projectId,
        filters (searchState (app (handleSearch_begin (str "plano") projectId None world_week)))
        = filters (searchState (app world_week))).
Proof.
  apply (submit_replaces_filters (str "plano") [] _ world_week).
  vm_compute. discriminate.
Defined.

(** C5: a submit whose text is empty or white space only (its [trim()] is
    empty) is a silent no-op: the loading flag, the error and the results
    are unchanged, no request is sent to the backend; indeed neither the
    search bar nor the application changes at all. *)
Theorem submit_blank_is_noop (s : SearchBar.State) (w : World) :
  trim (SearchBar.q s) = [] ->
  submit s w = (s, w)
  /\ loading (app (submit s w).2) = loading (app w)
  /\ error (app (submit s w).2) = error (app w)
  /\ rows (app (submit s w).2) = rows (app w)
  /\ backend (submit s w).2 = backend w.
Proof.
  intros Ht. unfold submit, SearchBar.handleSubmit. rewrite Ht.
  repeat split.
Qed.

(** The guard is the search bar's: [handleSearch] itself, reached from
    [handleRefine] with a blank command, does start a search. *)
Remark handleSearch_is_unguarded w :
  handleRefine (str "   ") w = Normal (handleSearch_begin (str "   ") None None w)
  /\ loading (app (handleSearch_begin (str "   ") None None w)) = true.
Proof. split; reflexivity. Qed.

Lemma submit_blank_is_noop_witness :
  let s := {| SearchBar.q := str "   "; SearchBar.project := str "P1";
              SearchBar.isTyping := false; SearchBar.showSuggestions := true;
              SearchBar.filters := ∅; SearchBar.suggestions := [] |} in
  submit s world_week = (s, world_week)
  /\ loading (app (submit s world_week).2) = loading (app world_week)
  /\ error (app (submit s world_week).2) = error (app world_week)
  /\ rows (app (submit s world_week).2) = rows (app world_week)
  /\ backend (submit s world_week).2 = backend world_week.
Proof.
  intros s. apply (submit_blank_is_noop s world_week). reflexivity.
Defined.

Section WithBuiltins.
Context `{Builtins}.

(** C8: when the backend call of an accepted submit settles, the loading
    flag is cleared whether the call succeeded or failed; on failure the
    error holds a message (the one of the error object, or the fixed
    fallback text) and the results are emptied. *)
Theorem handleSearch_settle_clears_loading query projectId filterArg o err w :
  loading (app (handleSearch_begin query projectId filterArg w)) = true
  /\ loading (app (handleSearch_settle query o
                    (handleSearch_begin query projectId filterArg w))) = false
  /\ loading (app (handleSearch_settle query o w)) = false
  /\ error (app (handleSearch_settle query (Rejected err) w))
     = Some (match err with
             | ErrorObject message => message
             | OtherValue => fallbackMessage
             end)
  /\ rows (app (handleSearch_settle query (Rejected err) w)) = [].
Proof. repeat split; destruct o; reflexivity. Qed.

End WithBuiltins.
End SubmitFacts.

(** ** The recent-search ledger: [updateRecentSearches] *)

Module LedgerFacts.
Import JS JSON App Session Example.
Local Open Scope nat_scope.

Lemma updated_unfold query prev :
  updated query prev = query :: take 4 (filter (fun q => q <> query) prev).
Proof. reflexivity. Qed.

Lemma filter_none {A} (P : A -> Prop) `{forall x, Decision (P x)} (l : list A) :
  (forall x, x ∈ l -> ~ P x) -> filter P l = [].
Proof.
  induction l as [|a l IH]; intros Hl; [reflexivity|].
  rewrite filter_cons_False by (apply Hl; left).
  apply IH. intros x Hx. apply Hl. now right.
Qed.

Lemma updated_once query prev :
  filter (fun q => q = query) (updated query prev) = [query].
Proof.
  rewrite updated_unfold, filter_cons_True by reflexivity. f_equal.
  apply filter_none. intros q Hq.
  apply elem_of_take in Hq as (i & Hq & _).
  apply list_elem_of_lookup_2, list_elem_of_filter in Hq. tauto.
Qed.

Lemma updated_length query prev : length (updated query prev) <= 5.
Proof. unfold updated. rewrite length_take. lia. Qed.

Lemma updated_no_growth query prev :
  query ∈ prev -> length (updated query prev) <= length prev.
Proof.
  intros Hin. rewrite updated_unfold. cbn [length]. rewrite length_take.
  pose proof (length_filter_lt (fun q => q <> query) prev query Hin
                (fun Hne => Hne eq_refl)).
  lia.
Qed.

(** Behind the front come the other entries, in their order, up to
    four of them. *)
Lemma updated_tail_eq query prev :
  tail (updated query prev) = take 4 (filter (fun q => q <> query) prev).
Proof. reflexivity. Qed.

Lemma filter_every {A} (P : A -> Prop) `{forall x, Decision (P x)} (l : list A) :
  (forall x, x ∈ l -> P x) -> filter P l = l.
Proof.
  induction l as [|a l IH]; intros Hl; [reflexivity|].
  rewrite filter_cons_True by (apply Hl; left).
  f_equal. apply IH. intros x Hx. apply Hl. now right.
Qed.

(** A text that is in a ledger of at most five entries moves to the
    front and no other entry is dropped. *)
Lemma updated_moves_to_front query prev :
  length prev <= 5 -> query ∈ prev ->
  updated query prev = query :: filter (fun q => q <> query) prev.
Proof.
  intros Hlen Hin. rewrite updated_unfold. f_equal. apply take_ge.
  pose proof (length_filter_lt (fun q => q <> query) prev query Hin
                (fun Hne => Hne eq_refl)).
  lia.
Qed.

Lemma moved_to_front_perm (query : jsstring) (prev : list jsstring) :
  NoDup prev -> query ∈ prev ->
  query :: filter (fun q => q <> query) prev ≡ₚ prev.
Proof.
  induction 1 as [|p l Hp Hl IH]; intros Hin; [inversion Hin|].
  destruct (decide (p = query)) as [->|Hne].
  - rewrite filter_cons_False by tauto.
    rewrite filter_every; [reflexivity|]. intros x Hx ->. contradiction.
  - rewrite filter_cons_True by exact Hne.
    apply elem_of_cons in Hin as [->|Hin]; [congruence|].
    rewrite perm_swap. constructor. now apply IH.
Qed.

(** A text that is new to a ledger of fewer than five entries goes in
    front of all of them. *)
Lemma updated_fresh query prev :
  length prev < 5 -> query ∉ prev -> updated query prev = query :: prev.
Proof.
  intros Hlen Hnin. unfold updated.
  rewrite filter_every by (intros x Hx ->; contradiction).
  apply take_ge. simpl. lia.
Qed.

(** The entries behind the front are the earlier ones, in their order. *)
Lemma updated_tail query prev :
  tail (updated query prev) `sublist_of` prev.
Proof.
  rewrite updated_unfold. simpl.
  etransitivity; [apply sublist_take|apply sublist_filter].
Qed.

Section WithBuiltins.
Context `{Builtins}.

(** What recording a successful search leaves behind. *)
Lemma settle_resolved_ledger query data w :
  recentSearches (app (handleSearch_settle query (Resolved data) w))
    = updated query (recentSearches (app w))
  /\ localStorage (handleSearch_settle query (Resolved data) w) !! str "recentSearches"
    = Some (JSON_stringify (updated query (recentSearches (app w)))).
Proof.
  split; [reflexivity|].
  unfold handleSearch_settle, updateRecentSearches, onApp. simpl.
  apply lookup_insert_eq.
Qed.

Lemma run_snoc w xs x : run w (xs ++ [x]) = perform (run w xs) x.
Proof. unfold run. apply foldl_snoc. Qed.

Lemma perform_accepted w x :
  trim (text x) <> [] ->
  perform w x = handleSearch_settle (text x) (result x)
                  (submit_world (text x) (project x) (filterOverride x) w).
Proof. unfold perform. destruct (trim (text x)); congruence. Qed.

Lemma perform_ledger_bound w x :
  length (recentSearches (app w)) <= 5 ->
  length (recentSearches (app (perform w x))) <= 5.
Proof.
  intros Hw. unfold perform.
  destruct (trim (text x)) eqn:Et.
  - apply StringFacts.trim_nil_iff in Et.
    assert (E : submit_world (text x) (project x) (filterOverride x) w = w).
    { unfold submit_world, submit, SearchBar.handleSubmit. simpl.
      apply StringFacts.trim_nil_iff in Et. now rewrite Et. }
    now rewrite E.
  - rewrite SubmitFacts.submit_world_accepted by (rewrite Et; discriminate).
    destruct (result x) as [data|err]; [|exact Hw].
    rewrite (proj1 (settle_resolved_ledger _ _ _)). apply updated_length.
Qed.

(** From a ledger of at most five entries, no sequence of submits leads to
    a longer one. *)
Lemma ledger_bounded_along_run xs : forall w,
  length (recentSearches (app w)) <= 5 ->
  length (recentSearches (app (run w xs))) <= 5.
Proof.
  induction xs as [|x xs IH]; intros w Hw; [exact Hw|].
  apply IH, perform_ledger_bound, Hw.
Qed.

(** C7: along every sequence of submits, right after each submit that is
    accepted and succeeds, the ledger has the submitted text at position
    0 and nowhere else, and at most five entries; if the text was in the
    ledger before, the ledger has not grown; and the list written to
    [localStorage] is the whole new ledger.  Behind the front stand the
    earlier entries other than the text, in their order, the first four
    of them: a text that was in a ledger of at most five entries moves
    to the front and every other entry stays (the same entries, and as
    many, when there was no repetition), and a new text goes in front of
    a ledger of fewer than five entries without dropping any. *)
Theorem ledger_after_each_successful_submit w xs x data :
  trim (text x) <> [] ->
  result x = Resolved data ->
  let before := recentSearches (app (run w xs)) in
  let w' := run w (xs ++ [x]) in
  let ledger := recentSearches (app w') in
  ledger !! 0 = Some (text x)
  /\ filter (fun q => q = text x) ledger = [text x]
  /\ length ledger <= 5
  /\ (text x ∈ before -> length ledger <= length before)
  /\ tail ledger `sublist_of` before
  /\ localStorage w' !! str "recentSearches" = Some (JSON_stringify ledger)
  /\ tail ledger = take 4 (filter (fun q => q <> text x) before)
  /\ (length before <= 5 -> text x ∈ before ->
        ledger = text x :: filter (fun q => q <> text x) before
        /\ forall e, e ∈ ledger <-> e ∈ before)
  /\ (length before <= 5 -> text x ∈ before -> NoDup before ->
        ledger ≡ₚ before /\ length ledger = length before)
  /\ (length before < 5 -> text x ∉ before -> ledger = text x :: before).
Proof.
  intros Ht Hr before w' ledger. subst before w' ledger.
  rewrite run_snoc, perform_accepted, Hr by exact Ht.
  rewrite SubmitFacts.submit_world_accepted by exact Ht.
  destruct (settle_resolved_ledger (text x) data
              (handleSearch_begin (text x)
                 (SearchBar.or_undefined (project x))
                 (Some (filterOverride x)) (run w xs))) as [-> ->].
  change (recentSearches (app (handleSearch_begin _ _ _ (run w xs))))
    with (recentSearches (app (run w xs))).
  split; [reflexivity|].
  split; [apply updated_once|].
  split; [apply updated_length|].
  split; [apply updated_no_growth|].
  split; [apply updated_tail|].
  split; [reflexivity|].
  split; [apply updated_tail_eq|].
  split.
  { intros Hlen Hin. rewrite updated_moves_to_front by assumption.
    split; [reflexivity|]. intros e. rewrite elem_of_cons, list_elem_of_filter.
    split; [intros [->|[_ He]]; assumption|].
    intros He. destruct (decide (e = text x)); auto. }
  split.
  { intros Hlen Hin Hnd. rewrite updated_moves_to_front by assumption.
    pose proof (moved_to_front_perm (text x) _ Hnd Hin) as Hperm.
    split; [exact Hperm|]. now apply Permutation_length. }
  intros Hlen Hnin. now apply updated_fresh.
Qed.

End WithBuiltins.

(** Two searches, then the first one again: it moves to the front and the
    ledger keeps its two entries. *)
Lemma ledger_after_each_successful_submit_witness :
  let sub (t : string) := {| text := str t; project := []; filterOverride := ∅;
                  result := Resolved [] |} in
  let before := recentSearches (app (@run builtins world0 [sub "muro"%string; sub "losa"%string])) in
  let w' := @run builtins world0 ([sub "muro"%string; sub "losa"%string] ++ [sub "muro"%string]) in
  let ledger := recentSearches (app w') in
  ledger !! 0 = Some (str "muro")
  /\ filter (fun q => q = str "muro") ledger = [str "muro"]
  /\ length ledger <= 5
  /\ (str "muro" ∈ before -> length ledger <= length before)
  /\ tail ledger `sublist_of` before
  /\ localStorage w' !! str "recentSearches" = Some (stringify_strings ledger)
  /\ tail ledger = take 4 (filter (fun q => q <> str "muro") before)
  /\ (length before <= 5 -> str "muro" ∈ before ->
        ledger = str "muro" :: filter (fun q => q <> str "muro") before
        /\ forall e, e ∈ ledger <-> e ∈ before)
  /\ (length before <= 5 -> str "muro" ∈ before -> NoDup before ->
        ledger ≡ₚ before /\ length ledger = length before)
  /\ (length before < 5 -> str "muro" ∉ before -> ledger = str "muro" :: before).
Proof.
  intros sub.
  apply (@ledger_after_each_successful_submit builtins world0
           [sub "muro"%string; sub "losa"%string] (sub "muro"%string) []).
  - vm_compute. discriminate.
  - reflexivity.
Defined.

End LedgerFacts.

(** ** Suggestions: [generateSuggestions] *)

Module SuggestionFacts.
Import JS SearchBar.
Local Open Scope nat_scope.

Lemma filter_all {A} (l : list A) : List.filter (fun _ => true) l = l.
Proof. induction l as [|a l IH]; simpl; congruence. Qed.

Lemma List_filter_sublist {A} (f : A -> bool) (l : list A) :
  List.filter f l `sublist_of` l.
Proof.
  induction l as [|a l IH]; simpl; [constructor|].
  destruct (f a); now constructor.
Qed.

Section WithBuiltins.
Context `{Builtins}.

(** C9: the pool is the first three recent searches, of kind [recent],
    followed by all categories, of kind [category]; the result is the
    pool with the entries dropped that fail the test, where with an empty
    query no entry fails and otherwise the entries pass whose text
    contains the query, case ignored; so the result keeps the order of
    the pool. *)
Theorem generateSuggestions_spec q recentSearches categories :
  let pool := allSuggestions recentSearches categories in
  let out := generateSuggestions q recentSearches categories in
  map text pool = take 3 recentSearches ++ categories
  /\ map type pool = replicate (length (take 3 recentSearches)) recent
                     ++ replicate (length categories) category
  /\ length (take 3 recentSearches) <= 3
  /\ (exists keep : SearchSuggestion -> bool,
        (forall sug, keep sug = true <-> q = [] \/ contains_ignoring_case q sug)
        /\ out = List.filter keep pool)
  /\ (q = [] -> out = pool)
  /\ out `sublist_of` pool.
Proof.
  intros pool out. subst pool out. unfold allSuggestions.
  split. { rewrite map_app, !map_map. simpl. now rewrite !map_id. }
  split. { rewrite map_app, !map_map. simpl.
           f_equal; (match goal with |- map _ ?l = _ => induction l; simpl; congruence end). }
  split. { rewrite length_take. lia. }
  split.
  { destruct q as [|c q].
    - exists (fun _ => true). split; [intros; tauto|].
      simpl. now rewrite filter_all.
    - exists (fun sug => includes (toLowerCase (text sug)) (toLowerCase (c :: q))).
      split; [|reflexivity].
      intros sug. rewrite StringFacts.includes_spec. unfold contains_ignoring_case.
      split; [auto|]. intros [E|E]; [discriminate|exact E]. }
  split. { intros ->. reflexivity. }
  destruct q; simpl; [reflexivity|apply List_filter_sublist].
Qed.

End WithBuiltins.

(** With four recent searches and no query text, the first three lead. *)
Example suggestions_first_three :
  map text (@generateSuggestions Example.builtins []
              [str "foo"; str "bar"; str "baz"; str "qux"] [str "Planos"])
  = [str "foo"; str "bar"; str "baz"; str "Planos"].
Proof. reflexivity. Qed.

(** The match is by substring and ignores case. *)
Example suggestions_substring :
  map text (@generateSuggestions Example.builtins (str "LAN")
              [str "foo"; str "plano A"] [str "Planos"; str "Contratos"])
  = [str "plano A"; str "Planos"].
Proof. reflexivity. Qed.

End SuggestionFacts.

(** ** Sorting and grouping: the effect of [ResultsList] *)

Module SortFacts.
Import JS ResultsList.

Section Sort.
Context {A : Type} (comparefn : A -> A -> number).

Lemma insert_perm x l : Permutation (insert comparefn x l) (x :: l).
Proof.
  induction l as [|y l IH]; simpl; [reflexivity|].
  destruct (Qle_bool _ _); [reflexivity|].
  rewrite IH. apply perm_swap.
Qed.

(** Sorting rearranges: nothing is lost, nothing is added. *)
Lemma Array_sort_perm l : Permutation (Array_sort comparefn l) l.
Proof.
  induction l as [|x l IH]; simpl; [reflexivity|].
  rewrite insert_perm. now constructor.
Qed.

(** A comparator that is consistent on the elements in [ok]: any two are
    comparable, the order is transitive, and a tie is a tie both ways. *)
Context (ok : A -> Prop).
Hypothesis total : forall x y, ok x -> ok y ->
  (SortCompare comparefn x y <= 0)%Q \/ (SortCompare comparefn y x <= 0)%Q.
Hypothesis trans : forall x y z, ok x -> ok y -> ok z ->
  (SortCompare comparefn x y <= 0)%Q -> (SortCompare comparefn y z <= 0)%Q ->
  (SortCompare comparefn x z <= 0)%Q.
Hypothesis tie_sym : forall x y, ok x -> ok y ->
  (SortCompare comparefn x y == 0)%Q -> (SortCompare comparefn y x <= 0)%Q.

Lemma insert_sorted x l :
  ok x -> Forall ok l ->
  StronglySorted (fun a b => (SortCompare comparefn a b <= 0)%Q) l ->
  StronglySorted (fun a b => (SortCompare comparefn a b <= 0)%Q)
                 (insert comparefn x l).
Proof.
  intros Hx Hl Hs. induction Hs as [|y l Hs IH Hy]; simpl.
  - repeat constructor.
  - apply Forall_cons in Hl as [Hoy Hl].
    rewrite Forall_forall in Hl.
    destruct (Qle_bool (SortCompare comparefn x y) 0) eqn:E.
    + apply Qle_bool_iff in E.
      constructor; [now constructor|].
      constructor; [exact E|].
      rewrite Forall_forall in Hy |- *. intros z Hz.
      apply trans with y; auto.
    + assert (Hyx : (SortCompare comparefn y x <= 0)%Q).
      { destruct (total x y Hx Hoy) as [Hxy|Hyx]; [|exact Hyx].
        apply Qle_bool_iff in Hxy. congruence. }
      constructor; [apply IH; now apply Forall_forall|].
      rewrite Forall_forall in Hy |- *. intros z Hz.
      rewrite insert_perm in Hz. apply elem_of_cons in Hz as [->|Hz]; auto.
Qed.

(** With a consistent comparator the result is in order. *)
Lemma Array_sort_sorted l :
  Forall ok l ->
  StronglySorted (fun a b => (SortCompare comparefn a b <= 0)%Q)
                 (Array_sort comparefn l).
Proof.
  induction 1 as [|x l Hx Hl IH]; simpl; [constructor|].
  apply insert_sorted; auto.
  rewrite Forall_forall in Hl |- *. intros z Hz.
  apply Hl. now rewrite <- (Array_sort_perm l).
Qed.

Lemma insert_tied x a l :
  ok x -> ok a -> Forall ok l ->
  List.filter (tied comparefn x) (insert comparefn a l)
  = List.filter (tied comparefn x) (a :: l).
Proof.
  intros Hx Ha. induction 1 as [|y l Hy Hl IH]; [reflexivity|].
  cbn [insert]. destruct (Qle_bool (SortCompare comparefn a y) 0) eqn:E; [reflexivity|].
  cbn [List.filter] in *. rewrite IH.
  destruct (tied comparefn x a) eqn:Ea; [|reflexivity].
  destruct (tied comparefn x y) eqn:Ey; [|reflexivity].
  exfalso. unfold tied in Ea, Ey. apply Qeq_bool_iff in Ea, Ey.
  assert (Hay : (SortCompare comparefn a y <= 0)%Q).
  { apply trans with x; auto. rewrite Ey. apply Qle_refl. }
  apply Qle_bool_iff in Hay. congruence.
Qed.

(** With a consistent comparator the sort is stable: elements that tie
    stay in the order they came in. *)
Lemma Array_sort_stable x l :
  ok x -> Forall ok l ->
  List.filter (tied comparefn x) (Array_sort comparefn l) = List.filter (tied comparefn x) l.
Proof.
  intros Hx. induction 1 as [|a l Ha Hl IH]; [reflexivity|].
  cbn [Array_sort foldr]. fold (Array_sort comparefn l).
  rewrite insert_tied; auto.
  - cbn [List.filter]. now rewrite IH.
  - rewrite Forall_forall in Hl |- *. intros z Hz.
    apply Hl. now rewrite <- (Array_sort_perm l).
Qed.

End Sort.

Lemma StronglySorted_impl {A} (ok : A -> Prop) (R S : A -> A -> Prop) l :
  (forall a b, ok a -> ok b -> R a b -> S a b) ->
  Forall ok l -> StronglySorted R l -> StronglySorted S l.
Proof.
  intros HRS Hok. induction 1 as [|a l Hl IH Ha]; [constructor|].
  apply Forall_cons in Hok as [Hoa Hok].
  constructor; [now apply IH|].
  rewrite Forall_forall in Ha, Hok |- *. auto.
Qed.

(** A comparator that subtracts keys, [key b - key a]: the result
    descends by key, and elements of equal key keep their order. *)
Lemma sort_by_key_descending {A} (comparefn : A -> A -> number)
    (ok : A -> Prop) (key : A -> Q) l :
  (forall a b, ok a -> ok b -> comparefn a b = Fin (key b - key a)) ->
  Forall ok l ->
  StronglySorted (fun a b => key b <= key a)%Q (Array_sort comparefn l)
  /\ forall x, ok x ->
       List.filter (fun y => Qeq_bool (key y) (key x)) (Array_sort comparefn l)
       = List.filter (fun y => Qeq_bool (key y) (key x)) l.
Proof.
  intros Hcmp Hl.
  assert (Ecmp : forall a b, ok a -> ok b ->
            SortCompare comparefn a b = (key b - key a)%Q).
  { intros a b Ha Hb. unfold SortCompare. now rewrite Hcmp. }
  assert (Hsorted : Forall ok (Array_sort comparefn l)).
  { rewrite Forall_forall in Hl |- *. intros z Hz.
    apply Hl. now rewrite <- (Array_sort_perm comparefn l). }
  assert (Htrans : forall x y z, ok x -> ok y -> ok z ->
            (SortCompare comparefn x y <= 0)%Q -> (SortCompare comparefn y z <= 0)%Q ->
            (SortCompare comparefn x z <= 0)%Q).
  { intros x y z Hx Hy Hz. rewrite !Ecmp by assumption. lra. }
  assert (Hsym : forall x y, ok x -> ok y ->
            (SortCompare comparefn x y == 0)%Q -> (SortCompare comparefn y x <= 0)%Q).
  { intros x y Hx Hy. rewrite !Ecmp by assumption. lra. }
  split.
  - eapply (StronglySorted_impl ok (fun a b => (SortCompare comparefn a b <= 0)%Q));
      [|exact Hsorted|].
    + intros a b Ha Hb. rewrite Ecmp by assumption. lra.
    + apply (Array_sort_sorted comparefn ok); auto.
      intros x y Hx Hy. rewrite !Ecmp by assumption. lra.
  - intros x Hx.
    assert (Etied : forall y, ok y ->
              tied comparefn x y = Qeq_bool (key y) (key x)).
    { intros y Hy. unfold tied. rewrite Ecmp by assumption.
      apply eq_true_iff_eq. rewrite !Qeq_bool_iff. split; lra. }
    rewrite <- (List.filter_ext_in (tied comparefn x)), <- (List.filter_ext_in (tied comparefn x) _ l).
    + apply (Array_sort_stable comparefn ok); auto.
    + intros y Hy. apply Etied. rewrite Forall_forall in Hl. apply Hl.
      now apply list_elem_of_In.
    + intros y Hy. apply Etied. rewrite Forall_forall in Hsorted. apply Hsorted.
      now apply list_elem_of_In.
Qed.

End SortFacts.

Module ResultsFacts.
Import JS JSON App ResultsList Example.

Section WithBuiltins.
Context `{Builtins}.

(** Sorting by relevance (the default of the [switch]): descending by
    score, rows of equal score in their original order. *)
Lemma relevance_sorted sortBy rows :
  sortBy <> Some (str "date") -> sortBy <> Some (str "type") ->
  StronglySorted (fun a b => score b <= score a)%Q (processed sortBy rows)
  /\ forall x, List.filter (fun y => Qeq_bool (score y) (score x)) (processed sortBy rows)
               = List.filter (fun y => Qeq_bool (score y) (score x)) rows.
Proof.
  intros Hd Ht.
  destruct (SortFacts.sort_by_key_descending (comparefn sortBy) (fun _ => True) score rows)
    as [Hs Hst].
  - intros a b _ _. unfold comparefn.
    destruct (decide (sortBy = Some (str "date"))); [contradiction|].
    destruct (decide (sortBy = Some (str "type"))); [contradiction|reflexivity].
  - now apply Forall_forall.
  - split; [exact Hs|]. intros x. now apply Hst.
Qed.

(** Sorting by date, when every row has a date that parses: descending
    by time, rows of equal time in their original order. *)
Lemma date_sorted_when_all_dated rows :
  Forall dated rows ->
  StronglySorted (fun a b => time_of b <= time_of a)%Q (processed (Some (str "date")) rows)
  /\ forall x, dated x ->
       List.filter (fun y => Qeq_bool (time_of y) (time_of x)) (processed (Some (str "date")) rows)
       = List.filter (fun y => Qeq_bool (time_of y) (time_of x)) rows.
Proof.
  apply SortFacts.sort_by_key_descending.
  intros a b [ta Ha] [tb Hb]. unfold comparefn, time_of.
  destruct (decide (Some (str "date") = Some (str "date"))); [|congruence].
  now rewrite Ha, Hb.
Qed.

(** A row without a date, or with one that does not parse, has no time,
    and the comparator cannot place it: against any row, either way
    round, it answers NaN, which the sort reads as a tie. *)
Lemma undated_row_is_incomparable a b :
  ~ dated a ->
  comparefn (Some (str "date")) a b = NaN
  /\ comparefn (Some (str "date")) b a = NaN
  /\ SortCompare (comparefn (Some (str "date"))) a b = 0%Q
  /\ SortCompare (comparefn (Some (str "date"))) b a = 0%Q.
Proof.
  intros Ha.
  assert (E : getTime (default [] (date_modified a)) = NaN).
  { destruct (getTime (default [] (date_modified a))) as [|t] eqn:E; [reflexivity|].
    exfalso. apply Ha. exists t. exact E. }
  unfold SortCompare, comparefn.
  destruct (decide (Some (str "date") = Some (str "date"))); [|congruence].
  rewrite E. destruct (getTime (default [] (date_modified b))); repeat split.
Qed.

Lemma absent_date_is_undated r : date_modified r = None -> ~ dated r.
Proof. intros E [t Ht]. rewrite E in Ht. discriminate. Qed.

(** Sorting by type, for a collation that is a total preorder: ascending
    in that collation, rows of equal type in their original order. *)
Lemma type_sorted rows :
  (forall s t, localeCompare s t <= 0 \/ localeCompare t s <= 0)%Z ->
  (forall s t u, localeCompare s t <= 0 -> localeCompare t u <= 0 -> localeCompare s u <= 0)%Z ->
  (forall s t, localeCompare s t = 0 -> localeCompare t s <= 0)%Z ->
  StronglySorted (fun a b => localeCompare (doc_type a) (doc_type b) <= 0)%Z
                 (processed (Some (str "type")) rows)
  /\ forall x,
       List.filter (fun y => (localeCompare (doc_type x) (doc_type y) =? 0)%Z)
                   (processed (Some (str "type")) rows)
       = List.filter (fun y => (localeCompare (doc_type x) (doc_type y) =? 0)%Z) rows.
Proof.
  intros Htotal Htrans Hsym.
  assert (Ecmp : forall a b, SortCompare (comparefn (Some (str "type"))) a b
                             = inject_Z (localeCompare (doc_type a) (doc_type b))).
  { intros a b. unfold SortCompare, comparefn.
    destruct (decide (Some (str "type") = Some (str "date"))) as [e|_];
      [vm_compute in e; discriminate|].
    destruct (decide (Some (str "type") = Some (str "type"))); [reflexivity|congruence]. }
  assert (Hle : forall a b, (SortCompare (comparefn (Some (str "type"))) a b <= 0)%Q
                            <-> (localeCompare (doc_type a) (doc_type b) <= 0)%Z).
  { intros a b. rewrite Ecmp, (Zle_Qle _ 0). reflexivity. }
  assert (Hall : Forall (fun _ : SearchRow => True) rows) by now apply Forall_forall.
  assert (Hall' : Forall (fun _ : SearchRow => True) (processed (Some (str "type")) rows))
    by now apply Forall_forall.
  split.
  - eapply (SortFacts.StronglySorted_impl (fun _ => True)); [|exact Hall'|].
    + intros a b _ _. apply Hle.
    + apply (SortFacts.Array_sort_sorted _ (fun _ => True)); auto.
      * intros x y _ _. rewrite !Hle. apply Htotal.
      * intros x y z _ _ _. rewrite !Hle. apply Htrans.
  - intros x.
    assert (Etied : forall y, tied (comparefn (Some (str "type"))) x y
                              = (localeCompare (doc_type x) (doc_type y) =? 0)%Z).
    { intros y. unfold tied. rewrite Ecmp.
      apply eq_true_iff_eq. rewrite Qeq_bool_iff, Z.eqb_eq. apply (inject_Z_injective _ 0). }
    rewrite <- !(filter_ext _ _ Etied).
    apply (SortFacts.Array_sort_stable _ (fun _ => True)); auto.
    + intros a b c _ _ _. rewrite !Hle. apply Htrans.
    + intros a b _ _. rewrite Hle, Ecmp. intros Hq.
      apply Hsym. now apply (inject_Z_injective _ 0).
Qed.

End WithBuiltins.

(** The spec's example: scores 0.9, 0.3, 0.6 come out as 0.9, 0.6, 0.3. *)
Example relevance_example :
  map score (@processed builtins (Some (str "relevance"))
               [row "a" 0.9 "t" None; row "b" 0.3 "t" None; row "c" 0.6 "t" None])
  = [0.9; 0.6; 0.3]%Q.
Proof. reflexivity. Qed.

(** C6: sorting by date is meant to treat a row without a date as the
    oldest, so that it comes last.  The comparator computes NaN for it
    (the time of [new Date('')]), the sort reads NaN as a tie, and the
    row stays where it was: here in front of a row dated 2021. *)
Theorem date_sort_leaves_undated_row_in_front :
  let undated := row "a" 0.5 "t" None in
  let newer := row "b" 0.5 "t" (Some "2021-01-01"%string) in
  @getTime builtins (default [] (date_modified newer)) = Fin (1609459200000 # 1)
  /\ @getTime builtins (default [] (date_modified undated)) = NaN
  /\ @comparefn builtins (Some (str "date")) undated newer = NaN
  /\ @comparefn builtins (Some (str "date")) newer undated = NaN
  /\ @processed builtins (Some (str "date")) [undated; newer] = [undated; newer].
Proof. repeat split. Qed.

(** With two dated rows behind it, the dated rows are put in order and
    the undated row still leads. *)
Example date_sort_three_rows :
  map document_id
      (@processed builtins (Some (str "date"))
         [row "a" 0.5 "t" None; row "b" 0.5 "t" (Some "2020-01-01"%string);
          row "c" 0.5 "t" (Some "2021-01-01"%string)])
  = [str "a"; str "c"; str "b"].
Proof. reflexivity. Qed.

(** *** Grouping *)

Section Grouping.
Context `{Builtins}.

Lemma reduce_snoc {A B} (f : B -> A -> completion B) init l x :
  reduce f init (l ++ [x]) = cbind (reduce f init l) (fun b => f b x).
Proof. unfold reduce. now rewrite foldl_snoc. Qed.

(** Rows whose group key is not a name inherited from
    [Object.prototype] are grouped without a throw, and each group holds
    the rows of its key in the order of the list. *)
Lemma reduce_group_row rows :
  Forall (fun r => group_key r ∉ Object_prototype) rows ->
  exists grouped,
    reduce group_row ∅ rows = Normal grouped
    /\ (forall k, default [] (grouped !! k)
                  = filter (fun r => group_key r = k) rows)
    /\ (forall k g, grouped !! k = Some g -> g <> []).
Proof.
  induction rows as [|r rows IH] using rev_ind; intros Hrows.
  - exists ∅. split; [reflexivity|]. split; intros k; [now rewrite lookup_empty|].
    intros g. rewrite lookup_empty. discriminate.
  - apply Forall_app in Hrows as [Hrows Hr]. rewrite Forall_singleton in Hr.
    destruct (IH Hrows) as (acc & Eacc & Hacc & Hne).
    rewrite reduce_snoc, Eacc. cbn [cbind]. unfold group_row.
    assert (Hnew : forall k (g' : list SearchRow),
              g' = default [] (acc !! group_key r) ++ [r] ->
              default [] (<[group_key r := g']> acc !! k)
              = filter (fun r0 => group_key r0 = k) (rows ++ [r])).
    { intros k g' ->. rewrite filter_app. destruct (decide (group_key r = k)) as [<-|Hk].
      - rewrite lookup_insert_eq, filter_cons_True by reflexivity. simpl.
        now rewrite Hacc.
      - rewrite lookup_insert_ne, filter_cons_False by exact Hk.
        rewrite Hacc. simpl. now rewrite app_nil_r. }
    destruct (acc !! group_key r) as [g|] eqn:Eg.
    + eexists. split; [reflexivity|]. split.
      * intros k. apply Hnew. reflexivity.
      * intros k g'. destruct (decide (group_key r = k)) as [<-|Hk].
        -- rewrite lookup_insert_eq. intros [= <-]. now destruct g.
        -- rewrite lookup_insert_ne by exact Hk. apply Hne.
    + destruct (decide (group_key r ∈ Object_prototype)); [exfalso; now apply Hr|].
      eexists. split; [reflexivity|]. split.
      * intros k. apply Hnew. reflexivity.
      * intros k g'. destruct (decide (group_key r = k)) as [<-|Hk].
        -- rewrite lookup_insert_eq. intros [= <-]. discriminate.
        -- rewrite lookup_insert_ne by exact Hk. apply Hne.
Qed.

(** The whole effect, on rows whose group keys avoid the inherited
    names: the array behind the [rows] prop and every other array stay as
    they were, the sorted rows are a new array holding a rearrangement of
    the input, and the groups split the sorted rows by group key. *)
Lemma organize_partitions rows sortBy (h : heap) rs :
  h !! rows = Some rs ->
  Forall (fun r => group_key r ∉ Object_prototype) rs ->
  exists h' st,
    organize rows sortBy h = Normal (h', st)
    /\ (forall l, l ∈ dom h -> h' !! l = h !! l)
    /\ (sortedRows st ∉ dom h)
    /\ h' !! sortedRows st = Some (processed sortBy rs)
    /\ Permutation (processed sortBy rs) rs
    /\ (forall k, default [] (groupedResults st !! k)
                  = filter (fun r => group_key r = k) (processed sortBy rs))
    /\ (forall k g, groupedResults st !! k = Some g -> g <> []).
Proof.
  intros Hrows Hkeys. unfold organize. cbv zeta.
  set (p := fresh (dom h)).
  assert (Hp : p ∉ dom h) by apply is_fresh.
  rewrite Hrows. cbn [default]. unfold id.
  assert (Ep : alter (Array_sort (comparefn sortBy)) p (<[p:=rs]> h) !! p
               = Some (processed sortBy rs)).
  { now rewrite lookup_alter_eq, lookup_insert_eq. }
  rewrite Ep. cbn [default]. unfold id.
  assert (Hperm : Permutation (processed sortBy rs) rs)
    by apply SortFacts.Array_sort_perm.
  destruct (reduce_group_row (processed sortBy rs)) as (grouped & -> & Hg & Hne).
  { rewrite Forall_forall in Hkeys |- *. intros r Hr. apply Hkeys.
    now rewrite <- Hperm. }
  eexists _, _. split; [reflexivity|]. cbn [sortedRows groupedResults].
  split.
  { intros l Hl. assert (p <> l) by (intros ->; contradiction).
    now rewrite lookup_alter_ne, lookup_insert_ne. }
  auto 10.
Qed.

(** C10: every row is meant to land in exactly one group.  A row whose
    type is [constructor] finds, under that key, the function that the
    empty object literal inherits from [Object.prototype]: no array is
    created, [push] is not there to call, the reducer throws, and neither
    the groups nor the sorted rows are set, whatever the sort key. *)
Theorem organize_throws_on_inherited_key sortBy :
  let r := row "d1" 0.9 "constructor" None in
  group_key r = str "constructor"
  /\ str "constructor" ∈ Object_prototype
  /\ group_row ∅ r = Throw TypeError
  /\ organize 1%positive sortBy {[ 1%positive := [r] ]} = Throw TypeError.
Proof.
  repeat split.
  vm_compute. repeat constructor.
Qed.

End Grouping.
End ResultsFacts.

(** * Further properties *)

(** ** Stored and loaded again: [JSON.stringify], [JSON.parse] and the
       effect that loads the recent searches *)

Module StorageFacts.
Import JS JSON App AppMount.

Lemma hex_value_digit d : d < 16 -> hex_value (hex_digit d) = Some d.
Proof.
  intros Hd. unfold hex_value, hex_digit, is_digit.
  destruct (d <? 10) eqn:E.
  - apply N.ltb_lt in E.
    replace ((48 <=? 48 + d) && (48 + d <=? 57)) with true
      by (symmetry; apply andb_true_iff; split; apply N.leb_le; lia).
    f_equal. lia.
  - apply N.ltb_ge in E.
    replace ((48 <=? 87 + d) && (87 + d <=? 57)) with false
      by (symmetry; apply andb_false_iff; right; apply N.leb_gt; lia).
    replace ((97 <=? 87 + d) && (87 + d <=? 102)) with true
      by (symmetry; apply andb_true_iff; split; apply N.leb_le; lia).
    f_equal. lia.
Qed.

Lemma hex4_escape c :
  c < 65536 ->
  hex4 (hex_digit (c / 4096 mod 16)) (hex_digit (c / 256 mod 16))
       (hex_digit (c / 16 mod 16)) (hex_digit (c mod 16)) = Some c.
Proof.
  intros Hc. unfold hex4.
  rewrite !hex_value_digit by (apply N.mod_lt; discriminate).
  f_equal.
  pose proof (N.div_mod c 16) as H0.
  pose proof (N.div_mod (c / 16) 16) as H1.
  pose proof (N.div_mod (c / 256) 16) as H2.
  rewrite N.Div0.div_div in H1. rewrite N.Div0.div_div in H2.
  change (16 * 16) with 256 in H1. change (256 * 16) with 4096 in H2.
  assert (H3 : c / 4096 < 16) by (apply N.Div0.div_lt_upper_bound; exact Hc).
  rewrite (N.mod_small (c / 4096) 16) by exact H3.
  lia.
Qed.


(** Reading back the escape of one code unit. *)
Lemma parse_chars_quote_unit c rest acc :
  c < 65536 ->
  parse_chars (quote_unit c ++ rest) acc = parse_chars rest (c :: acc).
Proof.
  intros Hc. unfold quote_unit.
  repeat match goal with
  | |- context [if ?x =? ?k then _ else _] =>
      destruct (N.eqb_spec x k) as [->|?]; [reflexivity|]
  end.
  destruct ((c <? 32) || is_leading_surrogate c || is_trailing_surrogate c) eqn:E.
  - cbn [unicode_escape app parse_chars]. cbn. now rewrite hex4_escape.
  - apply orb_false_iff in E as [E _]. apply orb_false_iff in E as [E _].
    change ([c] ++ rest) with (c :: rest). cbn [parse_chars].
    destruct (N.eqb_spec c dquote) as [->|_]; [contradiction|].
    destruct (N.eqb_spec c backslash) as [->|_]; [contradiction|].
    now rewrite E.
Qed.

(** A surrogate is neither a quote nor a backslash nor a control. *)
Lemma parse_chars_surrogate c rest acc :
  is_leading_surrogate c || is_trailing_surrogate c = true ->
  parse_chars (c :: rest) acc = parse_chars rest (c :: acc).
Proof.
  intros Hs. unfold is_leading_surrogate, is_trailing_surrogate in Hs.
  assert (Hc : 55296 <= c).
  { apply orb_true_iff in Hs as [Hs|Hs]; apply andb_true_iff in Hs as [Hs _];
      apply N.leb_le in Hs; lia. }
  cbn [parse_chars].
  destruct (N.eqb_spec c dquote) as [->|_]; [vm_compute in Hc; congruence|].
  destruct (N.eqb_spec c backslash) as [->|_]; [vm_compute in Hc; congruence|].
  destruct (N.ltb_spec c 32); [lia|reflexivity].
Qed.

(** Reading back the characters of a quoted string. *)
Lemma parse_chars_quote_units s : forall rest acc,
  code_units s ->
  parse_chars (quote_units s ++ dquote :: rest) acc = Some (rev acc ++ s, rest).
Proof.
  remember (length s) as n eqn:Hn. revert s Hn.
  induction n as [n IH] using lt_wf_ind. intros s -> rest acc Hs.
  destruct s as [|c s'].
  - simpl. now rewrite app_nil_r.
  - apply Forall_cons in Hs as [Hc Hs'].
    assert (Hone : parse_chars ((quote_unit c ++ quote_units s') ++ dquote :: rest) acc
                   = Some (rev acc ++ c :: s', rest)).
    { rewrite <- app_assoc, parse_chars_quote_unit by exact Hc.
      rewrite (IH (length s')) by (simpl; auto with arith).
      simpl. now rewrite <- app_assoc. }
    cbn [quote_units].
    destruct (is_leading_surrogate c) eqn:Ec; [|exact Hone].
    destruct s' as [|d s'']; [simpl in Hone; now rewrite app_nil_r in Hone|].
    destruct (is_trailing_surrogate d) eqn:Ed; [|exact Hone].
    apply Forall_cons in Hs' as [Hd Hs''].
    change ((c :: d :: quote_units s'') ++ dquote :: rest)
      with (c :: d :: (quote_units s'' ++ dquote :: rest)).
    rewrite parse_chars_surrogate by (rewrite Ec; reflexivity).
    rewrite parse_chars_surrogate by (rewrite Ed; apply orb_true_r).
    rewrite (IH (length s'')) by (simpl; auto with arith).
    simpl. now rewrite <- !app_assoc.
Qed.


Lemma parse_value_string fuel s rest :
  code_units s ->
  parse_value (S fuel) (QuoteJSONString s ++ rest) = Parsed (JStr s) rest.
Proof.
  intros Hs. unfold QuoteJSONString, quoted.
  change ((dquote :: quote_units s ++ [dquote]) ++ rest)
    with (dquote :: ((quote_units s ++ [dquote]) ++ rest)).
  rewrite <- app_assoc. cbn [parse_value skip_ws].
  change (is_ws dquote) with false. cbv iota.
  change (dquote =? 123) with false. change (dquote =? 91) with false.
  change (dquote =? dquote) with true. cbv iota.
  change ([dquote] ++ rest) with (dquote :: rest).
  now rewrite parse_chars_quote_units.
Qed.

Lemma parse_elements_S fuel s acc :
  parse_elements (S fuel) s acc
  = match parse_value fuel s with
    | Parsed v r =>
        match skip_ws r with
        | c :: r' =>
            if c =? 44 then parse_elements fuel r' (v :: acc)
            else if c =? 93 then Parsed (JArr (rev (v :: acc))) r'
            else Malformed
        | [] => Malformed
        end
    | other => other
    end.
Proof. reflexivity. Qed.

Lemma parse_elements_join l : forall x acc fuel rest,
  Forall code_units (x :: l) ->
  (length l + 1 < fuel)%nat ->
  parse_elements fuel (join (str ",") (map QuoteJSONString (x :: l)) ++ str "]" ++ rest) acc
  = Parsed (JArr (rev acc ++ map JStr (x :: l))) rest.
Proof.
  induction l as [|y l IH]; intros x acc fuel rest Hl Hf;
    apply Forall_cons in Hl as [Hx Hl];
    destruct fuel as [|[|fuel]]; try (simpl in Hf; lia);
    rewrite parse_elements_S.
  - cbn [map join].
    rewrite parse_value_string by exact Hx.
    change (skip_ws (str "]" ++ rest)) with (93 :: rest).
    change (93 =? 44) with false. change (93 =? 93) with true. cbv iota.
    reflexivity.
  - change (join (str ",") (map QuoteJSONString (x :: y :: l)))
      with (QuoteJSONString x ++ str "," ++ join (str ",") (map QuoteJSONString (y :: l))).
    rewrite <- !app_assoc.
    rewrite parse_value_string by exact Hx.
    set (tl := join _ _ ++ _ ++ rest).
    change (skip_ws (str "," ++ tl)) with (44 :: tl).
    change (44 =? 44) with true. cbv iota. subst tl.
    rewrite IH by (auto; simpl in *; lia).
    f_equal. f_equal. simpl. now rewrite <- app_assoc.
Qed.

Lemma QuoteJSONString_length x : (2 <= length (QuoteJSONString x))%nat.
Proof. unfold QuoteJSONString, quoted. simpl. rewrite length_app. simpl. lia. Qed.

Lemma join_quoted_length l :
  (2 * length l <= length (join (str ",") (map QuoteJSONString l)))%nat.
Proof.
  induction l as [|x [|y l] IH]; [simpl; lia| |].
  - pose proof (QuoteJSONString_length x). cbn [map join length]. lia.
  - change (join (str ",") (map QuoteJSONString (x :: y :: l)))
      with (QuoteJSONString x ++ str "," ++ join (str ",") (map QuoteJSONString (y :: l))).
    pose proof (QuoteJSONString_length x).
    rewrite !length_app. change (length (x :: y :: l)) with (S (length (y :: l))).
    lia.
Qed.

(** [JSON.parse(JSON.stringify(l))] is the array of the strings of [l]. *)
Lemma parse_stringify l :
  Forall code_units l ->
  JSON.parse (stringify l) = Some (JArr (map JStr l)).
Proof.
  intros Hl. unfold JSON.parse, stringify.
  pose proof (join_quoted_length l) as Hlen.
  destruct l as [|x l]; [reflexivity|].
  set (body := join _ _) in *.
  replace (2 * length (str "[" ++ body ++ str "]") + 1)%nat
    with (S (S (2 * length body + 3))) by (rewrite !length_app; simpl; lia).
  change (str "[" ++ body ++ str "]") with (91 :: (body ++ str "]")).
  assert (Hq : exists r, body ++ str "]" = dquote :: r).
  { subst body. destruct l; simpl; eexists; reflexivity. }
  destruct Hq as [r Hr].
  cbn [parse_value skip_ws]. change (is_ws 91) with false. cbv iota.
  change (91 =? 123) with false. change (91 =? 91) with true. cbv iota.
  rewrite Hr. cbn [skip_ws]. change (is_ws dquote) with false. cbv iota.
  change (dquote =? 93) with false. cbv iota. rewrite <- Hr.
  subst body.
  rewrite <- (app_nil_r (str "]")) at 1.
  rewrite parse_elements_join by (auto; simpl in *; lia).
  reflexivity.
Qed.

Lemma as_strings_array l : as_strings (JArr (map JStr l)) = Some l.
Proof.
  unfold as_strings. induction l as [|x l IH]; [reflexivity|].
  cbn. cbn in IH. now rewrite IH.
Qed.

Section WithBuiltins.
Context `{Builtins}.

(** What a successful search writes, the next session reads back: with
    [JSON.stringify] as the library function and strings of code units,
    the effect that loads the recent searches in a new session restores
    the ledger of the old one, entry by entry. *)
Theorem load_restores_recorded_ledger query data w :
  (forall l, JSON_stringify l = stringify l) ->
  code_units query ->
  Forall code_units (recentSearches (app w)) ->
  let old := handleSearch_settle query (Resolved data) w in
  exists w', loadRecentSearches (next_session old) = Loaded w'
    /\ recentSearches (app w') = recentSearches (app old)
    /\ localStorage w' = localStorage old
    /\ backend w' = [].
Proof.
  intros Hstr Hq Hl old.
  assert (Hold : recentSearches (app old) = updated query (recentSearches (app w)))
    by reflexivity.
  assert (Hsaved : localStorage (next_session old) !! str "recentSearches"
                   = Some (stringify (updated query (recentSearches (app w))))).
  { unfold old, next_session, handleSearch_settle, updateRecentSearches, onApp. simpl.
    rewrite lookup_insert_eq. now rewrite Hstr. }
  assert (Hunits : Forall code_units (updated query (recentSearches (app w)))).
  { unfold updated. apply Forall_take. constructor; [exact Hq|].
    apply Forall_forall. intros x Hx. apply list_elem_of_filter in Hx as [_ Hx].
    revert x Hx. now apply Forall_forall. }
  unfold loadRecentSearches. rewrite Hsaved.
  pose proof (parse_stringify _ Hunits) as Hp.
  destruct (stringify (updated query (recentSearches (app w)))) as [|c saved] eqn:E;
    [discriminate|].
  rewrite Hp, as_strings_array.
  eexists. split; [reflexivity|]. rewrite Hold. repeat split.
Qed.

End WithBuiltins.

Lemma load_restores_recorded_ledger_witness :
  let old := @handleSearch_settle builtins (str "muro") (Resolved [])
               (@handleSearch_settle builtins (str "losa") (Resolved []) Example.world0) in
  exists w', loadRecentSearches (next_session old) = Loaded w'
    /\ recentSearches (app w') = recentSearches (app old)
    /\ localStorage w' = localStorage old
    /\ backend w' = [].
Proof.
  apply (@load_restores_recorded_ledger builtins (str "muro") []
           (@handleSearch_settle builtins (str "losa") (Resolved []) Example.world0)).
  - reflexivity.
  - vm_compute. repeat constructor.
  - vm_compute. repeat constructor.
Defined.

(** A ledger cut short in storage, here the text [["muro"]: the effect
    throws the error of [JSON.parse]. *)
Example load_truncated_entry :
  loadRecentSearches
    {| app := initialState;
       localStorage := {[ str "recentSearches" := str "[" ++ quoted (str "muro") ]};
       backend := [] |}
  = LoadThrew SyntaxError.
Proof. vm_compute. reflexivity. Qed.

End StorageFacts.

(** ** Commands that reach [handleRefine] from the child views *)

Module CommandFacts.
Import JS JSON App Session Example.

(** A literal has no colon in it. *)
Ltac no_colon :=
  vm_compute; repeat (apply not_elem_of_cons; split; [discriminate|]);
  apply not_elem_of_nil.

(** A piece without a colon, followed by a colon, is the first piece. *)
Lemma split_first_piece p rest :
  colon ∉ p -> split colon (p ++ colon :: rest) = p :: split colon rest.
Proof.
  induction p as [|c p IH]; intros Hp; simpl.
  - reflexivity.
  - apply not_elem_of_cons in Hp as [Hc Hp].
    destruct (N.eqb_spec c colon) as [->|_]; [contradiction|].
    now rewrite IH.
Qed.

Lemma split_no_colon p : colon ∉ p -> split colon p = [p].
Proof.
  induction p as [|c p IH]; intros Hp; simpl; [reflexivity|].
  apply not_elem_of_cons in Hp as [Hc Hp].
  destruct (N.eqb_spec c colon) as [->|_]; [contradiction|].
  now rewrite IH.
Qed.

(** A command whose first piece is neither [sort] nor [filter] is
    searched for, whole. *)
Lemma handleRefine_default refinement w :
  command_type refinement <> str "sort" ->
  command_type refinement <> str "filter" ->
  handleRefine refinement w = Normal (handleSearch_begin refinement None None w).
Proof.
  unfold command_type, handleRefine. intros Hs Hf.
  destruct (decide _); [contradiction|]. destruct (decide _); [contradiction|].
  reflexivity.
Qed.

(** What the sort select of [ResultsList] emits, [handleRefine] reads
    back: for a value without a colon, [sort:] followed by the value sets
    the sort key to that value, changes nothing else and sends nothing. *)
Theorem handleRefine_sort_select value w :
  colon ∉ value ->
  exists w', handleRefine (str "sort:" ++ value) w = Normal w'
    /\ sortBy (searchState (app w')) = Some value
    /\ same_but_sortBy w w'.
Proof.
  intros Hv. unfold handleRefine.
  change (str "sort:" ++ value) with (str "sort" ++ colon :: value).
  rewrite split_first_piece by no_colon.
  rewrite split_no_colon by exact Hv. cbn [lookup list_lookup default from_option id].
  destruct (decide (str "sort" = str "sort")) as [_|n]; [|congruence].
  eexists. split; [reflexivity|]. split; [reflexivity|]. repeat split.
Qed.

Lemma handleRefine_sort_select_witness :
  exists w', handleRefine (str "sort:" ++ str "date") world_week = Normal w'
    /\ sortBy (searchState (app w')) = Some (str "date")
    /\ same_but_sortBy world_week w'.
Proof.
  apply (handleRefine_sort_select (str "date") world_week).
  vm_compute. repeat (apply not_elem_of_cons; split; [discriminate|]).
  apply not_elem_of_nil.
Defined.


Lemma skip_ws_elem s c : c ∈ skip_ws s -> c ∈ s.
Proof.
  induction s as [|d s IH]; simpl; [auto|].
  destruct (is_ws d); [|auto]. intros Hc. right. auto.
Qed.

Lemma skip_ws_cons_elem s c r x : skip_ws s = c :: r -> x ∈ c :: r -> x ∈ s.
Proof. intros E Hx. apply skip_ws_elem. now rewrite E. Qed.

(** What [parse_chars] leaves unread is part of what it was given. *)
Lemma parse_chars_rest_elem s acc v r x :
  parse_chars s acc = Some (v, r) -> x ∈ r -> x ∈ s.
Proof.
  remember (length s) as n eqn:Hn.
  revert s Hn acc v r. induction n as [n IH] using lt_wf_ind.
  intros s -> acc v r. destruct s as [|c s']; simpl; [discriminate|].
  destruct (c =? dquote).
  { intros [= _ <-] Hx. now right. }
  destruct (c =? backslash).
  - destruct s' as [|e s'']; [discriminate|].
    destruct (e =? 117).
    + destruct s'' as [|h1 [|h2 [|h3 [|h4 s3]]]]; try discriminate.
      destruct (hex4 h1 h2 h3 h4); [|discriminate].
      intros E Hx. eapply IH in E; [| |reflexivity|exact Hx]; [|simpl; lia].
      do 6 right. exact E.
    + destruct (unescape e); [|discriminate].
      intros E Hx. eapply IH in E; [| |reflexivity|exact Hx]; [|simpl; lia].
      do 2 right. exact E.
  - destruct (c <? 32); [discriminate|].
    intros E Hx. eapply IH in E; [| |reflexivity|exact Hx]; [|simpl; lia].
    right. exact E.
Qed.

(** An object with a member has a colon after its first key. *)
Lemma parse_members_needs_colon fuel s acc v r :
  parse_members fuel s acc = Parsed v r -> colon ∈ s.
Proof.
  destruct fuel as [|fuel]; [discriminate|]. cbn [parse_members].
  destruct (skip_ws s) as [|q s1] eqn:Es; [discriminate|].
  destruct (q =? dquote); [|discriminate].
  destruct (parse_chars s1 []) as [[k s2]|] eqn:Ek; [|discriminate].
  destruct (skip_ws s2) as [|c s3] eqn:Es2; [discriminate|].
  destruct (N.eqb_spec c colon) as [->|_]; [|discriminate].
  intros _. eapply skip_ws_cons_elem; [exact Es|]. right.
  eapply parse_chars_rest_elem; [exact Ek|].
  eapply skip_ws_cons_elem; [exact Es2|]. left.
Qed.

Lemma parse_elements_array fuel : forall s acc v r,
  parse_elements fuel s acc = Parsed v r -> exists elements, v = JArr elements.
Proof.
  induction fuel as [|fuel IH]; intros s acc v r; [discriminate|].
  rewrite StorageFacts.parse_elements_S.
  destruct (parse_value fuel s) as [v0 r0| |]; try discriminate.
  destruct (skip_ws r0) as [|c r']; [discriminate|].
  destruct (c =? 44); [apply IH|].
  destruct (c =? 93); [|discriminate]. intros [= <- _]. eauto.
Qed.

(** Text without a colon parses to no object but the empty one. *)
Lemma parse_object_without_colon text members :
  colon ∉ text -> JSON.parse text = Some (JObj members) -> members = [].
Proof.
  intros Hc. unfold JSON.parse.
  generalize (2 * length text + 1)%nat. intros fuel.
  destruct (parse_value fuel text) as [v r| |] eqn:E; try discriminate.
  destruct (skip_ws r); [|discriminate]. intros [= ->].
  destruct fuel as [|fuel]; [discriminate|]. cbn [parse_value] in E.
  destruct (skip_ws text) as [|c s'] eqn:Es; [discriminate|].
  destruct (c =? 123).
  { destruct (skip_ws s') as [|c' r'] eqn:Es'; [discriminate|].
    destruct (c' =? 125); [now injection E|].
    apply parse_members_needs_colon in E. exfalso. apply Hc.
    eapply skip_ws_cons_elem; [exact Es|]. now right. }
  destruct (c =? 91).
  { destruct (skip_ws s') as [|c' r'] eqn:Es'; [discriminate|].
    destruct (c' =? 93); [discriminate|].
    apply parse_elements_array in E as [elements E]. discriminate. }
  destruct (c =? dquote).
  { destruct (parse_chars s' []) as [[v r']|]; discriminate. }
  repeat (destruct (startsWith _ _); [discriminate|]).
  destruct (parse_number (c :: s')) as [[l r']|]; discriminate.
Qed.

(** No [filter] command sets a filter from a JSON object: the payload
    that reaches [JSON.parse] has no colon, so whenever it parses to an
    object, the object is the empty one, and the command leaves the
    whole session as it was and sends nothing. *)
Theorem handleRefine_filter_object_is_empty refinement members w :
  command_type refinement = str "filter" ->
  JSON.parse (ToString (command_value refinement)) = Some (JObj members) ->
  members = [] /\ handleRefine refinement w = Normal w.
Proof.
  intros Et Ep.
  assert (Hm : members = []).
  { destruct (command_value refinement) as [v|] eqn:Ev.
    - apply (parse_object_without_colon v); [|exact Ep].
      now apply (RefineFacts.payload_has_no_colon refinement).
    - vm_compute in Ep. discriminate. }
  split; [exact Hm|]. subst members.
  unfold command_type, command_value, handleRefine in *. rewrite Et.
  destruct (decide (str "filter" = str "sort")) as [e|_];
    [vm_compute in e; discriminate|].
  destruct (decide (str "filter" = str "filter")) as [_|n]; [|congruence].
  rewrite Ep. destruct w as [[rs ld [qr pj fl sb] rc er] ls bk]. reflexivity.
Qed.

Lemma handleRefine_filter_object_is_empty_witness :
  @nil (jsstring * json) = [] /\ handleRefine (str "filter:{}") world_week = Normal world_week.
Proof.
  apply (handleRefine_filter_object_is_empty (str "filter:{}") [] world_week);
    vm_compute; reflexivity.
Defined.

(** Objects apart, a payload that parses is merged by its indices: the
    string in [filter:"ab"] adds the keys [0] and [1] and keeps
    [dateRange]. *)
Example filter_string_payload :
  match handleRefine (str "filter:" ++ quoted (str "ab")) world_week with
  | Normal w' =>
      filters (searchState (app w')) !! str "0" = Some (JStr (str "a"))
      /\ filters (searchState (app w')) !! str "1" = Some (JStr (str "b"))
      /\ filters (searchState (app w')) !! str "dateRange" = Some (JStr (str "week"))
  | Throw _ => False
  end.
Proof. vm_compute. repeat split. Qed.

(** The quick actions of a result card: for every title and category,
    each of the three commands has a first piece that is neither [sort]
    nor [filter], so it is searched for as it stands, quotes and colon
    included; the filters and the sort key stay as they are, also for
    the action that is labelled as a filter by category. *)
Theorem quickActions_are_searched title category w :
  Forall (fun command =>
    handleRefine command w = Normal (handleSearch_begin command None None w)
    /\ backend (handleSearch_begin command None None w)
       = backend w ++ [{| req_query := command; req_project_id := None;
                          top_k := 12; probes := 10 |}]
    /\ filters (searchState (app (handleSearch_begin command None None w)))
       = filters (searchState (app w))
    /\ sortBy (searchState (app (handleSearch_begin command None None w)))
       = sortBy (searchState (app w)))
    (ResultCard.quickActions title category).
Proof.
  unfold ResultCard.quickActions, ResultCard.similarTo, ResultCard.inDocument,
    ResultCard.filterByCategory.
  repeat constructor.
Qed.

Lemma payload_is_second_piece_witness :
  exists rest,
    split colon filter_category_Planos
    = command_type filter_category_Planos :: (str "{" ++ quoted (str "category")) :: rest
    /\ filter_category_Planos
       = command_type filter_category_Planos ++ [colon] ++ (str "{" ++ quoted (str "category"))
         ++ match rest with
            | [] => []
            | _ :: _ => [colon] ++ join [colon] rest
            end.
Proof.
  apply (RefineFacts.payload_is_second_piece filter_category_Planos
           (str "{" ++ quoted (str "category"))).
  reflexivity.
Defined.

End CommandFacts.

(** ** The ledger along a session *)

Module LedgerInvariants.
Import JS JSON App Session Example.
Local Open Scope nat_scope.

Lemma updated_NoDup query prev : NoDup prev -> NoDup (updated query prev).
Proof.
  intros Hnd. unfold updated.
  eapply sublist_NoDup; [|apply sublist_take].
  constructor.
  - rewrite list_elem_of_filter. tauto.
  - now apply NoDup_filter.
Qed.

Lemma updated_elem_of query prev e :
  e ∈ updated query prev -> e = query \/ e ∈ prev.
Proof.
  unfold updated. intros He.
  eapply elem_of_sublist in He; [|apply sublist_take].
  apply elem_of_cons in He as [->|He]; [now left|right].
  apply list_elem_of_filter in He. tauto.
Qed.

Section WithBuiltins.
Context `{Builtins}.

(** What one submit does to the ledger: a blank or failed submit leaves
    it, an accepted and successful one records its text. *)
Lemma perform_ledger w x :
  recentSearches (app (perform w x))
  = match trim (text x), result x with
    | _ :: _, Resolved _ => updated (text x) (recentSearches (app w))
    | _, _ => recentSearches (app w)
    end.
Proof.
  unfold perform, submit_world, submit, SearchBar.handleSubmit. simpl.
  destruct (trim (text x)); [reflexivity|].
  destruct (result x); reflexivity.
Qed.

(** The ledger never holds a text twice: from a ledger without
    duplicates, every sequence of submits leads to a ledger without
    duplicates. *)
Theorem ledger_has_no_duplicates xs : forall w,
  NoDup (recentSearches (app w)) ->
  NoDup (recentSearches (app (run w xs))).
Proof.
  induction xs as [|x xs IH]; intros w Hw; [exact Hw|].
  apply IH. rewrite perform_ledger.
  destruct (trim (text x)); [exact Hw|].
  destruct (result x); [now apply updated_NoDup|exact Hw].
Qed.

(** The ledger holds nothing but what was there at the start and the
    texts of submits that were accepted and succeeded: a blank or a
    failed search is never recorded. *)
Theorem ledger_entries_were_found xs : forall w e,
  e ∈ recentSearches (app (run w xs)) ->
  e ∈ recentSearches (app w)
  \/ exists x data, x ∈ xs /\ text x = e /\ trim (text x) <> []
                    /\ result x = Resolved data.
Proof.
  induction xs as [|x xs IH]; intros w e He; [now left|].
  apply IH in He as [He|(y & data & Hy & Ht & Hb & Hr)].
  - rewrite perform_ledger in He.
    destruct (trim (text x)) eqn:Et; [now left|].
    destruct (result x) as [data|err] eqn:Er; [|now left].
    apply updated_elem_of in He as [->|He]; [|now left].
    right. exists x, data. rewrite Et. repeat split; [left|discriminate|exact Er].
  - right. exists y, data. repeat split; auto. now right.
Qed.

End WithBuiltins.

Lemma ledger_has_no_duplicates_witness :
  let sub (t : string) := {| text := str t; project := []; filterOverride := ∅;
                             result := Resolved [] |} in
  NoDup (recentSearches
           (app (@run builtins world0 [sub "muro"; sub "losa"; sub "muro"]%string))).
Proof.
  intros sub.
  apply (@ledger_has_no_duplicates builtins [sub "muro"; sub "losa"; sub "muro"]%string world0).
  constructor.
Defined.

Lemma ledger_entries_were_found_witness :
  let sub (t : string) := {| text := str t; project := []; filterOverride := ∅;
                             result := Resolved [] |} in
  str "muro" ∈ recentSearches (app world0)
  \/ exists x data, x ∈ [sub "muro"; sub "losa"]%string /\ text x = str "muro"
                    /\ trim (text x) <> [] /\ result x = Resolved data.
Proof.
  intros sub.
  apply (@ledger_entries_were_found builtins [sub "muro"; sub "losa"]%string
           world0 (str "muro")).
  vm_compute. repeat constructor.
Defined.

Lemma ledger_bounded_along_run_witness :
  let sub (t : string) := {| text := str t; project := []; filterOverride := ∅;
                             result := Resolved [] |} in
  length (recentSearches
            (app (@run builtins world0
                    [sub "a"; sub "b"; sub "c"; sub "d"; sub "e"; sub "f"]%string))) <= 5.
Proof.
  intros sub.
  apply (@LedgerFacts.ledger_bounded_along_run builtins
           [sub "a"; sub "b"; sub "c"; sub "d"; sub "e"; sub "f"]%string world0).
  simpl. lia.
Defined.

End LedgerInvariants.

(** ** The events of the search bar *)

Module SearchBarFacts.
Import JS JSON App SearchBar SearchBarEvents Example.

(** A search that starts leaves a trace: one more request. *)
Lemma handleSearch_begin_sends query projectId filterArg w :
  length (backend (handleSearch_begin query projectId filterArg w))
  = S (length (backend w)).
Proof.
  unfold handleSearch_begin, search, onApp. simpl.
  rewrite length_app. simpl. lia.
Qed.

(** The search button is disabled exactly when a submit would do
    nothing: for every state of the search bar and of the application,
    [disabled] holds if and only if [handleSubmit] changes neither. *)
Theorem button_disabled_iff_submit_is_noop (s : SearchBar.State) (w : World) :
  searchButtonDisabled s = true <-> Session.submit s w = (s, w).
Proof.
  unfold searchButtonDisabled, Session.submit, handleSubmit.
  destruct (trim (q s)) as [|c t]; split; try reflexivity; try discriminate.
  intros E. exfalso.
  apply (f_equal (fun p => length (backend p.2))) in E. cbn [snd] in E.
  rewrite handleSearch_begin_sends in E. lia.
Qed.

(** A click on a suggestion puts the suggestion in the box but submits
    what was in the box before: with a blank box nothing is sent, and
    otherwise the request carries the earlier text, whatever the
    suggestion says. *)
Theorem clickSuggestion_submits_earlier_text suggestion (s : SearchBar.State) (w : World) :
  let '(s', w') := clickSuggestion handleSearch_begin suggestion s w in
  q s' = text suggestion
  /\ match trim (q s) with
     | [] => w' = w /\ showSuggestions s' = showSuggestions s
     | _ :: _ =>
         w' = handleSearch_begin (q s) (or_undefined (project s)) (Some (filters s)) w
         /\ backend w' = backend w ++ [{| req_query := q s;
                                          req_project_id := or_undefined (project s);
                                          top_k := 12; probes := 10 |}]
         /\ showSuggestions s' = false
     end.
Proof.
  unfold clickSuggestion, handleSubmit.
  destruct (trim (q s)); repeat split.
Qed.

(** The text of the clicked suggestion is searched for only by a second
    submit. *)
Example click_then_enter :
  let s := {| q := str "mu"; project := []; isTyping := false; showSuggestions := true;
              filters := ∅; suggestions := [] |} in
  let sug := {| text := str "muro"; type := recent; icon := None |} in
  let '(s1, w1) := clickSuggestion handleSearch_begin sug s world0 in
  let '(s2, w2) := handleKeyPress handleSearch_begin (str "Enter") s1 w1 in
  map req_query (backend w1) = [str "mu"]
  /\ map req_query (backend w2) = [str "mu"; str "muro"].
Proof. split; reflexivity. Qed.

(** The two selects and a submit: whichever is chosen first, an
    accepted submit hands the application the filters of the search bar
    with the chosen category and date range under their keys, the empty
    choice included as the empty string, and every other key as the
    search bar held it. *)
Theorem selects_reach_the_application category dateRange (s : SearchBar.State) (w : World) :
  trim (q s) <> [] ->
  selectCategory category (selectDateRange dateRange s)
    = selectDateRange dateRange (selectCategory category s)
  /\ let w' := (Session.submit (selectCategory category (selectDateRange dateRange s)) w).2 in
     App.filters (searchState (app w')) !! str "category" = Some (JStr category)
     /\ App.filters (searchState (app w')) !! str "dateRange" = Some (JStr dateRange)
     /\ forall k, k <> str "category" -> k <> str "dateRange" ->
          App.filters (searchState (app w')) !! k = filters s !! k.
Proof.
  intros Hq. split.
  - unfold selectCategory, selectDateRange, setFilters. simpl. f_equal.
    apply insert_insert_ne. vm_compute. discriminate.
  - unfold Session.submit, handleSubmit, selectCategory, selectDateRange, setFilters. simpl.
    destruct (trim (q s)); [congruence|]. simpl.
    split; [apply lookup_insert_eq|].
    split.
    + rewrite lookup_insert_ne by (vm_compute; discriminate). apply lookup_insert_eq.
    + intros k Hc Hd. now rewrite !lookup_insert_ne by congruence.
Qed.

Lemma selects_reach_the_application_witness :
  let s := {| q := str "muro"; project := []; isTyping := false; showSuggestions := true;
              filters := ∅; suggestions := [] |} in
  selectCategory (str "Planos") (selectDateRange [] s)
    = selectDateRange [] (selectCategory (str "Planos") s)
  /\ let w' := (Session.submit (selectCategory (str "Planos") (selectDateRange [] s)) world0).2 in
     App.filters (searchState (app w')) !! str "category" = Some (JStr (str "Planos"))
     /\ App.filters (searchState (app w')) !! str "dateRange" = Some (JStr [])
     /\ forall k, k <> str "category" -> k <> str "dateRange" ->
          App.filters (searchState (app w')) !! k = filters s !! k.
Proof.
  intros s. apply (selects_reach_the_application (str "Planos") [] s world0).
  vm_compute. discriminate.
Defined.

End SearchBarFacts.

(** ** The filter tags and the group headers of [ResultsList] *)

Module ResultsViewFacts.
Import JS JSON App ResultsList ResultsView Example.

Lemma Set_has_true x s : Set_has x s = true <-> x ∈ s.
Proof. unfold Set_has. apply bool_decide_eq_true. Qed.

Lemma toggle_elem_of flt prev x :
  x ∈ handleFilterToggle flt prev
  <-> (x = flt /\ flt ∉ prev) \/ (x <> flt /\ x ∈ prev).
Proof.
  unfold handleFilterToggle, Set_add, Set_delete.
  destruct (Set_has flt prev) eqn:E.
  - apply Set_has_true in E. rewrite list_elem_of_filter.
    split; [intros [? ?]; now right|]. intros [[-> ?]|[? ?]]; tauto.
  - assert (Hn : flt ∉ prev) by (rewrite <- Set_has_true; congruence).
    rewrite elem_of_app, list_elem_of_singleton. split.
    + intros [Hx| ->]; [right|left]; split; auto. intros ->. contradiction.
    + intros [[-> _]|[_ Hx]]; auto.
Qed.

(** A click on a filter tag flips that filter and no other; a set
    without repetition stays without; two clicks give back the same
    filters, and when the filter was off at first, in the same order. *)
Theorem handleFilterToggle_flips flt prev :
  NoDup prev ->
  NoDup (handleFilterToggle flt prev)
  /\ (flt ∈ handleFilterToggle flt prev <-> flt ∉ prev)
  /\ (forall x, x <> flt -> (x ∈ handleFilterToggle flt prev <-> x ∈ prev))
  /\ (forall x, x ∈ handleFilterToggle flt (handleFilterToggle flt prev) <-> x ∈ prev)
  /\ (flt ∉ prev -> handleFilterToggle flt (handleFilterToggle flt prev) = prev).
Proof.
  intros Hnd. split; [|split; [|split; [|split]]].
  - unfold handleFilterToggle, Set_add, Set_delete.
    destruct (Set_has flt prev) eqn:E; [now apply NoDup_filter|].
    assert (Hn : flt ∉ prev) by (rewrite <- Set_has_true; congruence).
    apply NoDup_app. repeat split; [exact Hnd| |apply NoDup_singleton].
    intros x Hx Hx'. apply list_elem_of_singleton in Hx'. now subst.
  - rewrite toggle_elem_of. tauto.
  - intros x Hx. rewrite toggle_elem_of. tauto.
  - intros x. rewrite !toggle_elem_of.
    destruct (decide (x = flt)) as [->|Hx]; [|tauto].
    destruct (decide (flt ∈ prev)); tauto.
  - intros Hn. unfold handleFilterToggle at 2, Set_add.
    assert (E : Set_has flt prev = false).
    { destruct (Set_has flt prev) eqn:E; [|reflexivity].
      apply Set_has_true in E. contradiction. }
    rewrite E. unfold handleFilterToggle, Set_delete.
    assert (E' : Set_has flt (prev ++ [flt]) = true).
    { apply Set_has_true, elem_of_app. right. now left. }
    rewrite E', filter_app, filter_cons_False, filter_nil, app_nil_r by tauto.
    clear E E'. induction prev as [|p prev IH]; [reflexivity|].
    apply not_elem_of_cons in Hn as [Hp Hn]. apply NoDup_cons in Hnd as [_ Hnd].
    rewrite filter_cons_True by (intros ->; now apply Hp). now rewrite IH.
Qed.

Lemma handleFilterToggle_flips_witness :
  let flt := str "Planos" in
  let prev := [str "Contratos"] in
  NoDup (handleFilterToggle flt prev)
  /\ (flt ∈ handleFilterToggle flt prev <-> flt ∉ prev)
  /\ (forall x, x <> flt -> (x ∈ handleFilterToggle flt prev <-> x ∈ prev))
  /\ (forall x, x ∈ handleFilterToggle flt (handleFilterToggle flt prev) <-> x ∈ prev)
  /\ (flt ∉ prev -> handleFilterToggle flt (handleFilterToggle flt prev) = prev).
Proof.
  apply (handleFilterToggle_flips (str "Planos") [str "Contratos"]).
  repeat constructor. apply not_elem_of_nil.
Defined.

(** When the filter was on, two clicks move it to the end. *)
Example toggle_twice_moves_to_the_end :
  handleFilterToggle (str "a") (handleFilterToggle (str "a") [str "a"; str "b"])
  = [str "b"; str "a"].
Proof. reflexivity. Qed.

Lemma sum_list_fmap {A} (f : A -> nat) (l : list A) :
  sum_list (f <$> l) = sum_list_with f l.
Proof. induction l as [|a l IH]; [reflexivity|]. cbn. now rewrite <- IH. Qed.

Lemma group_counts_insert_new (acc : gmap jsstring (list SearchRow)) k g :
  acc !! k = None ->
  sum_list (group_counts (<[k := g]> acc)) = (length g + sum_list (group_counts acc))%nat.
Proof.
  intros Hk. unfold group_counts. rewrite !sum_list_fmap.
  now rewrite (map_to_list_insert acc k g Hk).
Qed.

Lemma group_counts_insert_old (acc : gmap jsstring (list SearchRow)) k g g' :
  acc !! k = Some g ->
  (sum_list (group_counts (<[k := g']> acc)) + length g
   = length g' + sum_list (group_counts acc))%nat.
Proof.
  intros Hk. unfold group_counts. rewrite !sum_list_fmap.
  rewrite <- (insert_delete_eq acc k g').
  rewrite (map_to_list_insert (delete k acc) k g') by apply lookup_delete_eq.
  rewrite <- (map_to_list_delete acc k g Hk). simpl. lia.
Qed.

Lemma reduce_group_counts rows : forall grouped,
  reduce group_row ∅ rows = Normal grouped ->
  sum_list (group_counts grouped) = length rows.
Proof.
  induction rows as [|r rows IH] using rev_ind; intros grouped.
  - intros [= <-]. reflexivity.
  - rewrite ResultsFacts.reduce_snoc.
    destruct (reduce group_row ∅ rows) as [acc|e]; [|discriminate].
    specialize (IH acc eq_refl). cbn [cbind]. unfold group_row.
    rewrite length_app. simpl.
    destruct (acc !! group_key r) as [g|] eqn:Eg.
    + intros [= <-].
      pose proof (group_counts_insert_old acc (group_key r) g (g ++ [r]) Eg) as Hc.
      rewrite length_app in Hc. simpl in Hc. lia.
    + destruct (decide _); [discriminate|]. intros [= <-].
      rewrite group_counts_insert_new by exact Eg. simpl. lia.
Qed.

Section WithBuiltins.
Context `{Builtins}.

(** For rows whose group keys avoid the names inherited from
    [Object.prototype], the effect completes, and the counts in the
    group headers add up to the number of results in the title line;
    the sorted rows are as many as the input rows. *)
Theorem group_counts_add_up rows sortBy (h : heap) rs :
  h !! rows = Some rs ->
  Forall (fun r => group_key r ∉ Object_prototype) rs ->
  exists h' st,
    organize rows sortBy h = Normal (h', st)
    /\ sum_list (group_counts (groupedResults st)) = length rs
    /\ length <$> (h' !! sortedRows st) = Some (length rs).
Proof.
  intros Hrows Hkeys. unfold organize. cbv zeta. rewrite Hrows. cbn [default]. unfold id.
  rewrite lookup_alter_eq, lookup_insert_eq. cbn [fmap option_fmap option_map default].
  unfold id.
  pose proof (SortFacts.Array_sort_perm (comparefn sortBy) rs) as Hperm.
  destruct (ResultsFacts.reduce_group_row (Array_sort (comparefn sortBy) rs))
    as (grouped & E & _).
  { rewrite Forall_forall in Hkeys |- *. intros r Hr. apply Hkeys. now rewrite <- Hperm. }
  rewrite E. cbn [cbind]. eexists _, _. split; [reflexivity|].
  cbn [sortedRows groupedResults].
  apply reduce_group_counts in E. rewrite (Permutation_length Hperm) in E.
  split; [exact E|].
  rewrite lookup_alter_eq, lookup_insert_eq. cbn.
  f_equal. now apply Permutation_length.
Qed.

End WithBuiltins.

Lemma group_counts_add_up_witness :
  let rs := [row "a" 0.9 "plano" None; row "b" 0.3 "" None; row "c" 0.6 "plano" None] in
  let h : heap := {[ 1%positive := rs ]} in
  exists h' st,
    @organize builtins 1%positive (Some (str "type")) h = Normal (h', st)
    /\ sum_list (group_counts (groupedResults st)) = length rs
    /\ length <$> (h' !! sortedRows st) = Some (length rs).
Proof.
  intros rs h.
  apply (@group_counts_add_up builtins 1%positive (Some (str "type")) h rs).
  - reflexivity.
  - repeat (constructor; [apply (bool_decide_unpack _); vm_compute; exact I|]).
    constructor.
Defined.

(** The groups of that example: two rows under [plano], in the order of
    the sorted rows, and the row without a type under [Otros]. *)
Example groups_example :
  let rs := [row "a" 0.9 "plano" None; row "b" 0.3 "" None; row "c" 0.6 "plano" None] in
  cbind (reduce group_row ∅ (@processed builtins (Some (str "type")) rs))
        (fun g => Normal (map document_id <$> g !! str "plano",
                          map document_id <$> g !! str "Otros"))
  = Normal (Some [str "a"; str "c"], Some [str "b"]).
Proof. vm_compute. reflexivity. Qed.

End ResultsViewFacts.

(** ** The result card *)

Module ResultCardFacts.
Import JS ResultCard.

Lemma gt_spec score t : gt score t = true <-> (t < score)%Q.
Proof.
  unfold gt. rewrite negb_true_iff, <- not_true_iff_false, Qle_bool_iff.
  split; [apply Qnot_le_lt|apply Qlt_not_le].
Qed.

(** The three relevance classes are cut at the doubles 0.8 and 0.5, both
    cuts falling to the lower class; so a score of exactly 0.8 is
    medium, one of exactly 0.5 is low, and a higher score never gets a
    lower class. *)
Theorem getRelevanceInfo_classes score :
  (class (getRelevanceInfo score) = str "high-relevance" <-> (double_0_8 < score)%Q)
  /\ (class (getRelevanceInfo score) = str "medium-relevance"
      <-> (double_0_5 < score /\ score <= double_0_8)%Q)
  /\ (class (getRelevanceInfo score) = str "low-relevance" <-> (score <= double_0_5)%Q)
  /\ (forall lower, (lower <= score)%Q ->
        class (getRelevanceInfo lower) = str "high-relevance" ->
        class (getRelevanceInfo score) = str "high-relevance")
  /\ (forall lower, (lower <= score)%Q ->
        class (getRelevanceInfo score) = str "low-relevance" ->
        class (getRelevanceInfo lower) = str "low-relevance").
Proof.
  assert (Hcut : (double_0_5 < double_0_8)%Q) by reflexivity.
  assert (Hcls : forall s,
    (class (getRelevanceInfo s) = str "high-relevance" <-> (double_0_8 < s)%Q)
    /\ (class (getRelevanceInfo s) = str "medium-relevance"
        <-> (double_0_5 < s /\ s <= double_0_8)%Q)
    /\ (class (getRelevanceInfo s) = str "low-relevance" <-> (s <= double_0_5)%Q)).
  { intros s. unfold getRelevanceInfo.
    destruct (gt s double_0_8) eqn:E8.
    - apply gt_spec in E8. cbn [class].
      repeat split; try (intros; vm_compute in *; discriminate); try (intros; assumption);
        try reflexivity; intros; exfalso; lra.
    - assert (H8 : (s <= double_0_8)%Q).
      { apply Qnot_lt_le. intros Hlt. apply gt_spec in Hlt. congruence. }
      destruct (gt s double_0_5) eqn:E5.
      + apply gt_spec in E5. cbn [class].
        repeat split; try (intros; vm_compute in *; discriminate); try (intros; assumption);
          try reflexivity; intros; exfalso; lra.
      + assert (H5 : (s <= double_0_5)%Q).
        { apply Qnot_lt_le. intros Hlt. apply gt_spec in Hlt. congruence. }
        cbn [class].
        repeat split; try (intros; vm_compute in *; discriminate); try (intros; assumption);
          try reflexivity; intros; exfalso; lra. }
  destruct (Hcls score) as (Hh & Hm & Hl).
  split; [exact Hh|]. split; [exact Hm|]. split; [exact Hl|].
  split; intros lower Hle Hc.
  - apply Hh. apply (Hcls lower) in Hc. lra.
  - apply (Hcls lower). apply Hl in Hc. lra.
Qed.

(** At the cuts. *)
Example getRelevanceInfo_at_the_cuts :
  class (getRelevanceInfo double_0_8) = str "medium-relevance"
  /\ class (getRelevanceInfo double_0_5) = str "low-relevance"
  /\ class (getRelevanceInfo 1) = str "high-relevance"
  /\ class (getRelevanceInfo 0) = str "low-relevance".
Proof. repeat split. Qed.

(** The preview of a collapsed card: content up to 200 code units is
    shown whole, without dots and without the button; longer content is
    cut to its first 200 code units followed by three dots, 203 in all,
    with the button; an expanded card shows the content as it is. *)
Theorem contentPreview_bounds content :
  contentPreview true content = content
  /\ (length (contentPreview false content) <= 203)%nat
  /\ ((length content <= 200)%nat ->
        contentPreview false content = content /\ showsExpandButton content = false)
  /\ ((200 < length content)%nat ->
        contentPreview false content = take 200 content ++ str "..."
        /\ length (contentPreview false content) = 203%nat
        /\ showsExpandButton content = true).
Proof.
  unfold contentPreview, showsExpandButton.
  split; [reflexivity|].
  destruct (Nat.ltb_spec 200 (length content)) as [Hlong|Hshort].
  - assert (Hlen : length (take 200 content ++ str "...") = 203%nat).
    { rewrite length_app, length_take. change (length (str "...")) with 3%nat. lia. }
    split; [lia|]. split; [lia|]. intros _.
    split; [reflexivity|]. split; [exact Hlen|reflexivity].
  - rewrite app_nil_r, take_ge by exact Hshort.
    split; [lia|]. split; [auto|lia].
Qed.

End ResultCardFacts.

(** ** More on the order of the results *)

Module OrderFacts.
Import JS JSON App ResultsList Example.

(** A list that is in order already comes back as it is. *)
Lemma Array_sort_in_order {A} (comparefn : A -> A -> number) l :
  Sorted (fun a b => (SortCompare comparefn a b <= 0)%Q) l ->
  Array_sort comparefn l = l.
Proof.
  induction 1 as [|x l Hl IH Hx]; [reflexivity|].
  cbn [Array_sort foldr]. fold (Array_sort comparefn l). rewrite IH.
  destruct Hx as [|y l' Hxy]; [reflexivity|].
  cbn [insert]. apply Qle_bool_iff in Hxy. now rewrite Hxy.
Qed.

(** The code-unit order of the example instance is a total preorder. *)
Lemma compare_units_range a : forall b,
  (compare_units a b = -1 \/ compare_units a b = 0 \/ compare_units a b = 1)%Z.
Proof.
  induction a as [|x a IH]; intros [|y b]; simpl; auto.
  destruct (x <? y); [auto|]. destruct (y <? x); auto.
Qed.

Lemma compare_units_antisym a : forall b,
  compare_units b a = (- compare_units a b)%Z.
Proof.
  induction a as [|x a IH]; intros [|y b]; simpl; try reflexivity.
  destruct (N.ltb_spec x y), (N.ltb_spec y x); try reflexivity; try lia.
  apply IH.
Qed.

Lemma compare_units_trans a : forall b c,
  (compare_units a b <= 0 -> compare_units b c <= 0 -> compare_units a c <= 0)%Z.
Proof.
  induction a as [|x a IH]; intros [|y b] [|z c]; simpl; try lia.
  destruct (N.ltb_spec x y), (N.ltb_spec y x), (N.ltb_spec y z), (N.ltb_spec z y),
    (N.ltb_spec x z), (N.ltb_spec z x); try lia.
  apply IH.
Qed.

Section WithBuiltins.
Context `{Builtins}.

(** Sorting never loses or repeats a row, for every sort key and every
    list of rows, also when the comparator answers NaN. *)
Theorem processed_is_a_rearrangement sortBy rows :
  Permutation (processed sortBy rows) rows
  /\ length (processed sortBy rows) = length rows
  /\ forall r, r ∈ processed sortBy rows <-> r ∈ rows.
Proof.
  pose proof (SortFacts.Array_sort_perm (comparefn sortBy) rows) as Hp.
  split; [exact Hp|]. split; [now apply Permutation_length|].
  intros r. now rewrite Hp.
Qed.

(** Rows that arrive ranked, by descending score, keep the order they
    arrived in under the default sort key, ties included. *)
Theorem ranked_rows_keep_their_order sortBy rows :
  sortBy <> Some (str "date") -> sortBy <> Some (str "type") ->
  Sorted (fun a b => score b <= score a)%Q rows ->
  processed sortBy rows = rows.
Proof.
  intros Hd Ht Hs. apply Array_sort_in_order.
  eapply Sorted_ind with (P := Sorted _) (l := rows);
    [constructor| |exact Hs].
  intros a l _ IH Ha. constructor; [exact IH|].
  destruct Ha as [|b l' Hab]; constructor.
  unfold SortCompare, comparefn.
  destruct (decide (sortBy = Some (str "date"))); [contradiction|].
  destruct (decide (sortBy = Some (str "type"))); [contradiction|]. lra.
Qed.

End WithBuiltins.

Lemma ranked_rows_keep_their_order_witness :
  let rows := [row "a" 0.9 "t" None; row "b" 0.6 "u" None; row "c" 0.6 "t" None] in
  @processed builtins None rows = rows.
Proof.
  intros rows. apply (@ranked_rows_keep_their_order builtins None rows).
  - discriminate.
  - discriminate.
  - repeat constructor; vm_compute; discriminate.
Defined.

Lemma relevance_sorted_witness :
  let rows := [row "a" 0.9 "t" None; row "b" 0.3 "t" None; row "c" 0.6 "t" None] in
  StronglySorted (fun a b => score b <= score a)%Q
                 (@processed builtins (Some (str "relevance")) rows)
  /\ forall x, List.filter (fun y => Qeq_bool (score y) (score x))
                           (@processed builtins (Some (str "relevance")) rows)
               = List.filter (fun y => Qeq_bool (score y) (score x)) rows.
Proof.
  intros rows.
  apply (@ResultsFacts.relevance_sorted builtins (Some (str "relevance")) rows);
    vm_compute; discriminate.
Defined.

Lemma date_sorted_when_all_dated_witness :
  let rows := [row "a" 0.9 "t" (Some "2020-01-01"%string);
               row "b" 0.3 "t" (Some "2021-01-01"%string)] in
  StronglySorted (fun a b => @time_of builtins b <= @time_of builtins a)%Q
                 (@processed builtins (Some (str "date")) rows)
  /\ forall x, @dated builtins x ->
       List.filter (fun y => Qeq_bool (@time_of builtins y) (@time_of builtins x))
                   (@processed builtins (Some (str "date")) rows)
       = List.filter (fun y => Qeq_bool (@time_of builtins y) (@time_of builtins x)) rows.
Proof.
  intros rows.
  apply (@ResultsFacts.date_sorted_when_all_dated builtins rows).
  repeat (constructor; [eexists; reflexivity|]). constructor.
Defined.

Lemma type_sorted_witness :
  let rows := [row "a" 0.9 "b" None; row "b" 0.3 "a" None; row "c" 0.6 "b" None] in
  StronglySorted (fun a b => compare_units (doc_type a) (doc_type b) <= 0)%Z
                 (@processed builtins (Some (str "type")) rows)
  /\ forall x,
       List.filter (fun y => (compare_units (doc_type x) (doc_type y) =? 0)%Z)
                   (@processed builtins (Some (str "type")) rows)
       = List.filter (fun y => (compare_units (doc_type x) (doc_type y) =? 0)%Z) rows.
Proof.
  intros rows.
  apply (@ResultsFacts.type_sorted builtins rows).
  - intros s t. cbn [localeCompare builtins].
    pose proof (compare_units_range s t). pose proof (compare_units_antisym s t). lia.
  - intros s t u. apply compare_units_trans.
  - intros s t. cbn [localeCompare builtins].
    pose proof (compare_units_antisym s t). lia.
Defined.

Lemma organize_partitions_witness :
  let rs := [row "a" 0.9 "plano" None; row "b" 0.3 "" None; row "c" 0.6 "plano" None] in
  let h : heap := {[ 1%positive := rs ]} in
  let sortBy := Some (str "type") in
  exists h' st,
    @organize builtins 1%positive sortBy h = Normal (h', st)
    /\ (forall l, l ∈ dom h -> h' !! l = h !! l)
    /\ (sortedRows st ∉ dom h)
    /\ h' !! sortedRows st = Some (@processed builtins sortBy rs)
    /\ Permutation (@processed builtins sortBy rs) rs
    /\ (forall k, default [] (groupedResults st !! k)
                  = filter (fun r => group_key r = k) (@processed builtins sortBy rs))
    /\ (forall k g, groupedResults st !! k = Some g -> g <> []).
Proof.
  intros rs h sortBy.
  apply (@ResultsFacts.organize_partitions builtins 1%positive sortBy h rs).
  - reflexivity.
  - repeat (constructor; [apply (bool_decide_unpack _); vm_compute; exact I|]).
    constructor.
Defined.

End OrderFacts.
